(** * EventSort clients: session bootstrap, review queue and swipe resolver

  A shallow embedding of the two browser clients of the repository:

  - [EventsortUi]: the single-card client
    (eventsort-ui: [App.tsx], [components/EventCard.tsx],
    [services/api.ts], [types/Event.ts]);
  - [Frontend]: the list client built on a query cache
    (frontend: [App.jsx], [hooks/useAuth.js], [hooks/useEvents.js],
    [api/client.js]).

  JavaScript runs the application code on one thread; an [async]
  function is cut at each [await] into a synchronous prefix and the
  continuations that the environment resumes when the awaited promise
  settles.  Both clients are therefore modelled as transition systems
  whose actions are the things the environment does: it mounts a
  component, delivers a gesture, settles an outstanding request, fires
  a timer.  A handler reads the state that the handlers before it left:
  the state updates of one action are committed (the component has
  rendered again) before the next action is delivered. *)

From Stdlib Require Import ZArith Lia.
From stdpp Require Import base option list strings pretty gmap.

Local Open Scope string_scope.
Local Open Scope list_scope.

(** ** JavaScript values used by both clients *)

Module Js.

(** Truthiness of a string: only the empty string is falsy. *)
Definition truthy (s : string) : bool :=
  if decide (s = "") then false else true.

(** Truthiness of [string | null]. *)
Definition truthyOpt (o : option string) : bool :=
  match o with
  | Some s => truthy s
  | None => false
  end.

(** [a || b] on [string | null] with a string fallback. *)
Definition orElse (o : option string) (d : string) : string :=
  match o with
  | Some s => if truthy s then s else d
  | None => d
  end.

(** [s !== t] on strings. *)
Definition strictNe (s t : string) : bool :=
  if decide (s = t) then false else true.

(** [Number.MAX_SAFE_INTEGER] and [Number.isSafeInteger]: the integers
    a JavaScript number holds exactly and tells apart from their
    neighbours. *)
Definition MAX_SAFE_INTEGER : Z := 2 ^ 53 - 1.

Definition isSafeInteger (n : Z) : Prop :=
  (- MAX_SAFE_INTEGER <= n <= MAX_SAFE_INTEGER)%Z.

(** [n.toString()] / template interpolation of a number.  Numbers are
    modelled as integers; the code compares them with [0] and prints
    them, nothing else.  The text is the decimal numeral, which is what
    JavaScript prints for every safe integer.  A larger integer reaches
    the code rounded to the nearest double (so neighbours fall
    together) and is printed in exponent form from [1e21] on: what is
    stated about the digits of the text is stated for safe integers. *)
Definition numToString (n : Z) : string := pretty n.

Definition boolToString (b : bool) : string :=
  if b then "true" else "false".

End Js.

(** ** Browser objects: Web Storage and the query string *)

Module Web.

(** [localStorage] / [sessionStorage]: string keys, string values. *)
Abbreviation Storage := (gmap string string).

Definition getItem (st : Storage) (k : string) : option string := st !! k.

Definition setItem (st : Storage) (k v : string) : Storage := <[k := v]> st.

(** [new URLSearchParams(window.location.search)], already split into
    its name/value pairs, in the order of the query string. *)
Definition URLSearchParams := list (string * string).

(** [params.get(name)]: the first value with that name, or [null]. *)
Fixpoint get (ps : URLSearchParams) (name : string) : option string :=
  match ps with
  | [] => None
  | (k, v) :: rest => if decide (k = name) then Some v else get rest name
  end.

End Web.

(** ** The HTTP client (axios) as far as the clients use it *)

Module Axios.

Inductive Method := GET | POST.

(** The request bodies the clients send. *)
Inductive Body :=
| NoBody
| SwipeBody (interested : bool).

Record Config := mkConfig {
  baseURL : string;
  method : Method;
  url : string;
  params : list (string * string);
  body : Body;
  headers : gmap string string
}.

Definition withHeader (c : Config) (k v : string) : Config :=
  {| baseURL := baseURL c; method := method c; url := url c;
     params := params c; body := body c;
     headers := <[k := v]> (headers c) |}.

Definition header (c : Config) (k : string) : option string :=
  headers c !! k.

(** A request interceptor sees the storage of the moment the request
    is made. *)
Definition Interceptor := Web.Storage -> Config -> Config.

Global Instance Method_eq_dec : EqDecision Method.
Proof. solve_decision. Defined.

Global Instance Body_eq_dec : EqDecision Body.
Proof. solve_decision. Defined.

End Axios.

(** ** The data both clients exchange with the server ([types/Event.ts]) *)

Record Event := mkEvent {
  id : Z;
  user_id : Z;
  username : string;
  title : string;
  event_type : string;
  date : string;
  location : option string;
  synopsis : string;
  organisation : option string;
  fee : option Z;
  signup_link : option string;
  deadline : option string;
  target_audience : option string;
  refreshments : option string;
  key_speakers : option string;
  raw_message : option string;
  user_interested : option bool;
  date_created : string
}.

Record AuthResponse := mkAuthResponse {
  auth_user_id : Z;
  auth_username : string;
  auth_message : string
}.

Record SwipeResponse := mkSwipeResponse {
  success : bool;
  event_id : Z;
  interested : bool;
  message : string
}.

Record Stats := mkStats {
  total_events : Z;
  stat_interested : Z;
  not_interested : Z;
  pending_swipes : Z;
  urgent_events : Z
}.

(** What a settled request carries: [response.data] on success, and on
    failure the part of the error the code looks at,
    [err.response?.data?.error]. *)
Inductive Payload :=
| AuthData (r : AuthResponse)
| EventsData (l : list Event)
| EventData (e : Event)
| SwipeData (r : SwipeResponse)
| StatsData (s : Stats).

Record AxiosError := mkAxiosError {
  response_data_error : option string
}.

(** What the application does to the outside world, in order. *)
Inductive Effect :=
| Request (c : Axios.Config)
| StorageWrite (k v : string)
| SetTimeout (ms : nat)
| ConsoleLog (msg : string)
| ConsoleError (msg : string).

Definition isRequest (e : Effect) : bool :=
  match e with Request _ => true | _ => false end.

Definition isStorageWrite (e : Effect) : bool :=
  match e with StorageWrite _ _ => true | _ => false end.

Definition isWriteTo (k : string) (e : Effect) : bool :=
  match e with
  | StorageWrite k' _ => if decide (k' = k) then true else false
  | _ => false
  end.

(** The requests among a list of effects, oldest first. *)
Definition requests (es : list Effect) : list Axios.Config :=
  omap (fun e => match e with Request c => Some c | _ => None end) es.

(** Does the request go to this path with this method? *)
Definition isCall (m : Axios.Method) (path : string) (c : Axios.Config) : bool :=
  if decide (Axios.method c = m) then
    if decide (Axios.url c = path) then true else false
  else false.

(** ** The single-card client (eventsort-ui) *)

Module EventsortUi.

(** *** [components/EventCard.tsx] *)

(** The rows of the card's details block, in the order of the markup. *)
Inductive Detail :=
| DDate | DLocation | DOrganisation | DFee
| DRefreshments | DAudience | DSpeakers.

(** [{cond && <div>…{text}</div>}]: a row when [cond] holds, nothing
    otherwise. *)
Definition when (cond : bool) (d : Detail) (text : string) : list (Detail * string) :=
  if cond then [(d, text)] else [].

(** [event.x && event.x !== skip && (…{event.x}…)] *)
Definition unlessDefault (o : option string) (skip : string) (d : Detail)
  : list (Detail * string) :=
  match o with
  | Some s => when (Js.truthy s && Js.strictNe s skip) d s
  | None => []
  end.

(** [{event.fee !== null && event.fee > 0 && (… ${event.fee} …)}] *)
Definition feeDetail (e : Event) : list (Detail * string) :=
  match fee e with
  | Some f => when (0 <? f)%Z DFee ("$" +:+ Js.numToString f)
  | None => []
  end.

Definition EventCard (e : Event) : list (Detail * string) :=
  [(DDate, date e)]
  ++ [(DLocation, Js.orElse (location e) "TBC")]
  ++ match organisation e with
     | Some o => when (Js.truthy o) DOrganisation o
     | None => []
     end
  ++ feeDetail e
  ++ unlessDefault (refreshments e) "none" DRefreshments
  ++ unlessDefault (target_audience e) "all students" DAudience
  ++ unlessDefault (key_speakers e) "None" DSpeakers.

(** *** [services/api.ts] *)

Definition API_BASE_URL : string :=
  "https://api-production-ce2b.up.railway.app/".

(** [api.interceptors.request.use]: add the stored user id as a bearer
    credential when there is one. *)
Definition interceptor : Axios.Interceptor := fun localStorage config =>
  match Web.getItem localStorage "user_id" with
  | Some userId =>
      if Js.truthy userId
      then Axios.withHeader config "Authorization" ("Bearer " +:+ userId)
      else config
  | None => config
  end.

(** A request made through the [api] instance: its defaults, then the
    interceptor. *)
Definition api (localStorage : Web.Storage) (m : Axios.Method) (path : string)
    (ps : list (string * string)) (b : Axios.Body) : Axios.Config :=
  interceptor localStorage
    {| Axios.baseURL := API_BASE_URL; Axios.method := m; Axios.url := path;
       Axios.params := ps; Axios.body := b;
       Axios.headers := {[ "Content-Type" := "application/json" ]} |}.

(** [validateToken] goes through the bare [axios], not through [api]:
    no instance defaults and no interceptor. *)
Definition validateToken (token : string) : Axios.Config :=
  {| Axios.baseURL := ""; Axios.method := Axios.POST;
     Axios.url := API_BASE_URL +:+ "/auth/validate-token";
     Axios.params := [("token", token)]; Axios.body := Axios.NoBody;
     Axios.headers := ∅ |}.

Definition getEvents (ls : Web.Storage) (filter : string) : Axios.Config :=
  api ls Axios.GET "/events"
    [("filter", filter); ("include_raw", Js.boolToString false)] Axios.NoBody.

Definition getEvent (ls : Web.Storage) (eventId : Z) (includeRaw : bool)
  : Axios.Config :=
  api ls Axios.GET ("/events/" +:+ Js.numToString eventId)
    [("include_raw", Js.boolToString includeRaw)] Axios.NoBody.

Definition swipeEvent (ls : Web.Storage) (eventId : Z) (interested : bool)
  : Axios.Config :=
  api ls Axios.POST ("/events/" +:+ Js.numToString eventId +:+ "/swipe")
    [] (Axios.SwipeBody interested).

Definition getInterestedEvents (ls : Web.Storage) : Axios.Config :=
  api ls Axios.GET "/events/interested/all"
    [("include_raw", Js.boolToString false)] Axios.NoBody.

Definition getStats (ls : Web.Storage) : Axios.Config :=
  api ls Axios.GET "/stats" [] Axios.NoBody.

(** The calls of the module that go through [api]. *)
Inductive ApiCall :=
| CallGetEvents (filter : string)
| CallGetEvent (eventId : Z) (includeRaw : bool)
| CallSwipeEvent (eventId : Z) (interested : bool)
| CallGetInterestedEvents
| CallGetStats.

Definition send (ls : Web.Storage) (c : ApiCall) : Axios.Config :=
  match c with
  | CallGetEvents f => getEvents ls f
  | CallGetEvent i r => getEvent ls i r
  | CallSwipeEvent i b => swipeEvent ls i b
  | CallGetInterestedEvents => getInterestedEvents ls
  | CallGetStats => getStats ls
  end.

(** *** [App.tsx] *)

Inductive Direction := left | right.

(** The component's [useState] cells. *)
Record AppState := mkAppState {
  events : list Event;
  currentIndex : nat;
  loading : bool;
  error : option string;
  authenticated : bool;
  swiping : bool;
  swipeDirection : option Direction
}.

(** An [async] function suspended at an [await]. *)
Inductive Awaiting :=
| AwaitValidateToken
| AwaitGetEvents
| AwaitSwipeEvent (direction : Direction) (currentEvent : Event).

Record World := mkWorld {
  search : Web.URLSearchParams;
  app : AppState;
  localStorage : Web.Storage;
  inflight : list Awaiting;
  timers : nat;
  trace : list Effect
}.

Definition setApp (w : World) (a : AppState) : World :=
  {| search := search w; app := a; localStorage := localStorage w;
     inflight := inflight w; timers := timers w; trace := trace w |}.

Definition emit (w : World) (e : Effect) : World :=
  {| search := search w; app := app w; localStorage := localStorage w;
     inflight := inflight w; timers := timers w; trace := trace w ++ [e] |}.

(** Send a request and suspend on it. *)
Definition await (w : World) (c : Axios.Config) (k : Awaiting) : World :=
  {| search := search w; app := app w; localStorage := localStorage w;
     inflight := inflight w ++ [k]; timers := timers w;
     trace := trace w ++ [Request c] |}.

Definition storageSetItem (w : World) (k v : string) : World :=
  {| search := search w; app := app w;
     localStorage := Web.setItem (localStorage w) k v;
     inflight := inflight w; timers := timers w;
     trace := trace w ++ [StorageWrite k v] |}.

Definition setTimeout (w : World) (ms : nat) : World :=
  {| search := search w; app := app w; localStorage := localStorage w;
     inflight := inflight w; timers := S (timers w);
     trace := trace w ++ [SetTimeout ms] |}.

Definition setEvents (a : AppState) (l : list Event) : AppState :=
  {| events := l; currentIndex := currentIndex a; loading := loading a;
     error := error a; authenticated := authenticated a;
     swiping := swiping a; swipeDirection := swipeDirection a |}.

Definition setCurrentIndex (a : AppState) (f : nat -> nat) : AppState :=
  {| events := events a; currentIndex := f (currentIndex a);
     loading := loading a; error := error a;
     authenticated := authenticated a; swiping := swiping a;
     swipeDirection := swipeDirection a |}.

Definition setLoading (a : AppState) (b : bool) : AppState :=
  {| events := events a; currentIndex := currentIndex a; loading := b;
     error := error a; authenticated := authenticated a;
     swiping := swiping a; swipeDirection := swipeDirection a |}.

Definition setError (a : AppState) (e : option string) : AppState :=
  {| events := events a; currentIndex := currentIndex a;
     loading := loading a; error := e; authenticated := authenticated a;
     swiping := swiping a; swipeDirection := swipeDirection a |}.

Definition setAuthenticated (a : AppState) (b : bool) : AppState :=
  {| events := events a; currentIndex := currentIndex a;
     loading := loading a; error := error a; authenticated := b;
     swiping := swiping a; swipeDirection := swipeDirection a |}.

Definition setSwiping (a : AppState) (b : bool) : AppState :=
  {| events := events a; currentIndex := currentIndex a;
     loading := loading a; error := error a;
     authenticated := authenticated a; swiping := b;
     swipeDirection := swipeDirection a |}.

Definition setSwipeDirection (a : AppState) (d : option Direction) : AppState :=
  {| events := events a; currentIndex := currentIndex a;
     loading := loading a; error := error a;
     authenticated := authenticated a; swiping := swiping a;
     swipeDirection := d |}.

Definition noTokenMessage : string :=
  "No authentication token found. Please get a new link from the Telegram bot.".

Definition authFailedMessage : string :=
  "Authentication failed. Please get a new link from the bot.".

Definition initialState : AppState :=
  {| events := []; currentIndex := 0; loading := true; error := None;
     authenticated := false; swiping := false; swipeDirection := None |}.

(** A freshly loaded page: the query string and what an earlier visit
    left in [localStorage]. *)
Definition init (qs : Web.URLSearchParams) (ls : Web.Storage) : World :=
  {| search := qs; app := initialState; localStorage := ls;
     inflight := []; timers := 0; trace := [] |}.

(** [authenticate], from its call in the mount effect to the first
    [await]. *)
Definition authenticate (w : World) : World :=
  let token := Web.get (search w) "token" in
  if negb (Js.truthyOpt token) then
    setApp w (setLoading (setError (app w) (Some noTokenMessage)) false)
  else
    await w (validateToken (default "" token)) AwaitValidateToken.

(** [authenticate], resumed with the answer of [validateToken]. *)
Definition authenticate_validated (w : World) (authResponse : AuthResponse)
  : World :=
  let w := storageSetItem w "user_id"
             (Js.numToString (auth_user_id authResponse)) in
  let w := storageSetItem w "username" (auth_username authResponse) in
  let w := setApp w (setAuthenticated (app w) true) in
  await w (getEvents (localStorage w) "upcoming") AwaitGetEvents.

(** [authenticate], resumed with the answer of [getEvents]. *)
Definition authenticate_loaded (w : World) (eventsData : list Event) : World :=
  setApp w
    (setLoading
       (setCurrentIndex (setEvents (app w) eventsData) (fun _ => 0)) false).

(** The [catch] block of [authenticate]. *)
Definition authenticate_catch (w : World) (err : AxiosError) : World :=
  let w := emit w (ConsoleError "Auth error:") in
  setApp w
    (setLoading
       (setError (app w)
          (Some (Js.orElse (response_data_error err) authFailedMessage)))
       false).

Definition directionName (d : Direction) : string :=
  match d with left => "left" | right => "right" end.

(** The [catch] block of [handleSwipe]. *)
Definition handleSwipe_catch (w : World) : World :=
  let w := emit w (ConsoleError "Swipe error:") in
  setApp w (setSwiping (setSwipeDirection (app w) None) false).

(** [handleSwipe], from the gesture to the [await]. *)
Definition handleSwipe (w : World) (direction : Direction) : World :=
  if swiping (app w)
     || (List.length (events (app w)) <=? currentIndex (app w))%nat
  then w
  else
    let w := setApp w
               (setSwipeDirection (setSwiping (app w) true) (Some direction)) in
    match events (app w) !! currentIndex (app w) with
    | Some currentEvent =>
        let interested :=
          match direction with right => true | left => false end in
        await w (swipeEvent (localStorage w) (id currentEvent) interested)
          (AwaitSwipeEvent direction currentEvent)
    | None =>
        (* [currentEvent.id] on [undefined] throws inside the [try] *)
        handleSwipe_catch w
    end.

(** [handleSwipe], resumed after [swipeEvent] succeeded. *)
Definition handleSwipe_resolved (w : World) (direction : Direction)
    (currentEvent : Event) : World :=
  let w := emit w (ConsoleLog ("Swiped " +:+ directionName direction
                               +:+ " on: " +:+ title currentEvent)) in
  setTimeout w 300.

(** The callback handed to [setTimeout]. *)
Definition timeoutCallback (w : World) : World :=
  setApp w
    (setSwiping (setSwipeDirection (setCurrentIndex (app w) S) None) false).

(** What the environment can do to the page. *)
Inductive Action :=
| Mount
| Gesture (d : Direction)
| Fulfil (i : nat) (p : Payload)
| Reject (i : nat) (err : AxiosError)
| Tick.

Definition takeInflight (w : World) (i : nat) : World :=
  {| search := search w; app := app w; localStorage := localStorage w;
     inflight := delete i (inflight w); timers := timers w;
     trace := trace w |}.

Definition takeTimer (w : World) : World :=
  {| search := search w; app := app w; localStorage := localStorage w;
     inflight := inflight w; timers := pred (timers w); trace := trace w |}.

(** Resume a suspended function with the outcome of its request.  An
    answer of the wrong shape for the call is not one the server gives. *)
Definition resume (w : World) (k : Awaiting) (r : Payload + AxiosError)
  : option World :=
  match k, r with
  | AwaitValidateToken, inl (AuthData a) => Some (authenticate_validated w a)
  | AwaitGetEvents, inl (EventsData l) => Some (authenticate_loaded w l)
  | AwaitSwipeEvent d e, inl (SwipeData _) => Some (handleSwipe_resolved w d e)
  | AwaitValidateToken, inr err => Some (authenticate_catch w err)
  | AwaitGetEvents, inr err => Some (authenticate_catch w err)
  | AwaitSwipeEvent _ _, inr _ => Some (handleSwipe_catch w)
  | _, _ => None
  end.

Definition settle (w : World) (i : nat) (r : Payload + AxiosError) : World :=
  match inflight w !! i with
  | Some k => default w (resume (takeInflight w i) k r)
  | None => w
  end.

Definition step (w : World) (a : Action) : World :=
  match a with
  | Mount => authenticate w
  | Gesture d => handleSwipe w d
  | Fulfil i p => settle w i (inl p)
  | Reject i err => settle w i (inr err)
  | Tick =>
      match timers w with
      | O => w
      | S _ => timeoutCallback (takeTimer w)
      end
  end.

Definition run (w : World) (acts : list Action) : World :=
  fold_left step acts w.

(** The screens of [App]'s render, in the order of its early returns. *)
Inductive View :=
| ViewLoading
| ViewError (msg : string)
| ViewAuthenticating
| ViewCaughtUp
| ViewCard (currentEvent : Event) (position total : nat) (disabled : bool).

Definition render (a : AppState) : View :=
  if loading a then ViewLoading
  else if Js.truthyOpt (error a) then ViewError (default "" (error a))
  else if negb (authenticated a) then ViewAuthenticating
  else if (List.length (events a) <=? currentIndex a)%nat then ViewCaughtUp
  else
    match events a !! currentIndex a with
    | Some currentEvent =>
        ViewCard currentEvent (currentIndex a + 1) (List.length (events a))
          (swiping a)
    | None => ViewCaughtUp (* not reached: the index is in range *)
    end.

(** Swipe requests that have been sent and not yet answered. *)
Definition isSwipeAwait (k : Awaiting) : bool :=
  match k with AwaitSwipeEvent _ _ => true | _ => false end.

Definition outstandingSwipes (w : World) : nat :=
  List.length (filter (fun k => isSwipeAwait k = true) (inflight w)).

(** The sign-up link of the card:
    [{event.signup_link && event.signup_link !== 'TBC' &&
      event.signup_link !== 'None' && (<a href={event.signup_link}>…)}] *)
Definition signupLink (e : Event) : option string :=
  match signup_link e with
  | Some l =>
      if Js.truthy l && Js.strictNe l "TBC" && Js.strictNe l "None"
      then Some l else None
  | None => None
  end.

End EventsortUi.

(** ** The list client (frontend) *)

Module Frontend.

(** *** [App.jsx]: the card of the list *)

Inductive Cell := CDate | CLocation | CDeadline | CFee.

(** [{event.fee !== null && (… {event.fee === 0 ? 'Free' : `$${event.fee}`})}] *)
Definition feeCell (e : Event) : list (Cell * string) :=
  match fee e with
  | Some f =>
      [(CFee, if decide (f = 0%Z) then "Free" else "$" +:+ Js.numToString f)]
  | None => []
  end.

(** [{event.x && (…{event.x}…)}] *)
Definition cellIf (o : option string) (c : Cell) : list (Cell * string) :=
  match o with
  | Some s => if Js.truthy s then [(c, s)] else []
  | None => []
  end.

Definition EventCard (e : Event) : list (Cell * string) :=
  [(CDate, date e)]
  ++ cellIf (location e) CLocation
  ++ cellIf (deadline e) CDeadline
  ++ feeCell e.

(** *** [api/client.js] *)

(** [import.meta.env.VITE_API_URL || 'http://localhost:8000'] *)
Definition API_BASE_URL (VITE_API_URL : option string) : string :=
  Js.orElse VITE_API_URL "http://localhost:8000".

Definition getTokenFromUrl (qs : Web.URLSearchParams) : option string :=
  Web.get qs "token".

Definition getUserId (sessionStorage : Web.Storage) : option string :=
  Web.getItem sessionStorage "user_id".

(** [api.interceptors.request.use] *)
Definition interceptor : Axios.Interceptor := fun sessionStorage config =>
  match getUserId sessionStorage with
  | Some userId =>
      if Js.truthy userId
      then Axios.withHeader config "Authorization" ("Bearer " +:+ userId)
      else config
  | None => config
  end.

(** A request made through the [api] instance. *)
Definition api (env : option string) (ss : Web.Storage) (m : Axios.Method)
    (path : string) (ps : list (string * string)) (b : Axios.Body)
  : Axios.Config :=
  interceptor ss
    {| Axios.baseURL := API_BASE_URL env; Axios.method := m;
       Axios.url := path; Axios.params := ps; Axios.body := b;
       Axios.headers := ∅ |}.

(** *** The query cache the hooks are written against

    The hooks hand their work to a query library that is not part of
    the repository.  The model keeps what the hooks rely on: a cache
    entry per query key; a mounted hook fetches when its entry has no
    data or is stale and nothing is being fetched for that key, so
    hooks mounted with the same key share one fetch; a disabled query
    never fetches; a failed fetch is retried as often as the [retry]
    option allows; invalidation marks the entries whose key starts with
    the given key and fetches them again: an idle entry is fetched, a
    refetch under way (the entry has data already) is let go and
    started afresh, a first fetch under way is left to finish.  Time is
    left out: with the default [staleTime] of zero data is stale as
    soon as it arrives, with [Infinity] only once it has been
    invalidated.  Components are never unmounted, so every entry has a
    hook mounted on it. *)

(** A query key is an array of strings; [null] when the token is. *)
Definition QueryKey := list (option string).

(** The [useQuery] calls of the hooks. *)
Inductive Hook :=
| UseAuth
| UseEvents (filter : string)
| UseInterestedEvents
| UseStats.

Inductive StaleTime := Zero | Infinity.

Record Options := mkOptions {
  enabled : bool;
  retry : nat;
  staleTime : StaleTime
}.

Inductive Status := pending | success | error.
Inductive FetchStatus := idle | fetching.

Record Query := mkQuery {
  hook : Hook;
  data : option Payload;
  status : Status;
  fetchStatus : FetchStatus;
  isInvalidated : bool;
  failureCount : nat
}.

(** The cache keeps its entries in the order they were created. *)
Definition QueryCache := list (QueryKey * Query).

Global Instance Hook_eq_dec : EqDecision Hook.
Proof. solve_decision. Defined.

Fixpoint find (c : QueryCache) (k : QueryKey) : option Query :=
  match c with
  | [] => None
  | (k', q) :: rest => if decide (k' = k) then Some q else find rest k
  end.

(** Replace the entry of [k], or add it at the end. *)
Fixpoint store (c : QueryCache) (k : QueryKey) (q : Query) : QueryCache :=
  match c with
  | [] => [(k, q)]
  | (k', q') :: rest =>
      if decide (k' = k) then (k, q) :: rest else (k', q') :: store rest k q
  end.

(** Does the query key [a] start with the filter key [b]? *)
Fixpoint partialMatchKey (a b : QueryKey) : bool :=
  match b, a with
  | [], _ => true
  | y :: b', x :: a' => if decide (x = y) then partialMatchKey a' b' else false
  | _ :: _, [] => false
  end.

(** An [async] function suspended at an [await].  A query function
    that the cache has let go of still runs to its end when its request
    is answered (no [queryFn] here takes the abort signal), but what it
    returns is dropped. *)
Inductive Awaiting :=
| AwaitQueryFn (k : QueryKey)
| AwaitCancelledQueryFn (h : Hook)
| AwaitMutationFn.

Global Instance Awaiting_eq_dec : EqDecision Awaiting.
Proof. solve_decision. Defined.

(** The two generations of the library differ in what [isLoading]
    says of a query that has never fetched. *)
Inductive Version := V4 | V5.

Record World := mkWorld {
  version : Version;
  VITE_API_URL : option string;
  search : Web.URLSearchParams;
  sessionStorage : Web.Storage;
  cache : QueryCache;
  inflight : list Awaiting;
  trace : list Effect
}.

Definition init (v : Version) (env : option string)
    (qs : Web.URLSearchParams) (ss : Web.Storage) : World :=
  {| version := v; VITE_API_URL := env; search := qs; sessionStorage := ss;
     cache := []; inflight := []; trace := [] |}.

Definition setCache (w : World) (c : QueryCache) : World :=
  {| version := version w; VITE_API_URL := VITE_API_URL w;
     search := search w; sessionStorage := sessionStorage w; cache := c;
     inflight := inflight w; trace := trace w |}.

(** Send a request and suspend on it. *)
Definition await (w : World) (c : Axios.Config) (k : Awaiting) : World :=
  {| version := version w; VITE_API_URL := VITE_API_URL w;
     search := search w; sessionStorage := sessionStorage w;
     cache := cache w; inflight := inflight w ++ [k];
     trace := trace w ++ [Request c] |}.

Definition takeInflight (w : World) (i : nat) : World :=
  {| version := version w; VITE_API_URL := VITE_API_URL w;
     search := search w; sessionStorage := sessionStorage w;
     cache := cache w; inflight := delete i (inflight w);
     trace := trace w |}.

(** [setUserId]: [sessionStorage.setItem('user_id', userId)]. *)
Definition setUserId (w : World) (userId : Z) : World :=
  {| version := version w; VITE_API_URL := VITE_API_URL w;
     search := search w;
     sessionStorage :=
       Web.setItem (sessionStorage w) "user_id" (Js.numToString userId);
     cache := cache w; inflight := inflight w;
     trace := trace w ++ [StorageWrite "user_id" (Js.numToString userId)] |}.

(** *** [hooks/useAuth.js], [hooks/useEvents.js] *)

Definition queryKey (w : World) (h : Hook) : QueryKey :=
  match h with
  | UseAuth => [Some "auth"; getTokenFromUrl (search w)]
  | UseEvents filter => [Some "events"; Some filter]
  | UseInterestedEvents => [Some "events"; Some "interested"]
  | UseStats => [Some "stats"]
  end.

(** The options each hook passes; the library's defaults where it
    passes none (three retries, data stale at once). *)
Definition options (w : World) (h : Hook) : Options :=
  match h with
  | UseAuth =>
      {| enabled := Js.truthyOpt (getTokenFromUrl (search w));
         retry := 0; staleTime := Infinity |}
  | _ => {| enabled := true; retry := 3; staleTime := Zero |}
  end.

(** The request each [queryFn] makes. *)
Definition queryFn (w : World) (h : Hook) : Axios.Config :=
  let call := api (VITE_API_URL w) (sessionStorage w) in
  match h with
  | UseAuth =>
      call Axios.POST "/auth/validate-token"
        [("token", default "" (getTokenFromUrl (search w)))] Axios.NoBody
  | UseEvents filter =>
      call Axios.GET "/events"
        [("filter", filter); ("include_raw", Js.boolToString false)]
        Axios.NoBody
  | UseInterestedEvents =>
      call Axios.GET "/events/interested/all" [] Axios.NoBody
  | UseStats => call Axios.GET "/stats" [] Axios.NoBody
  end.

(** The rest of each [queryFn] once its request is answered: [useAuth]
    stores the user id, the others return the data as it is.  [None]
    for an answer of the wrong shape. *)
Definition queryFn_returned (w : World) (h : Hook) (p : Payload)
  : option World :=
  match h, p with
  | UseAuth, AuthData d => Some (setUserId w (auth_user_id d))
  | UseEvents _, EventsData _ => Some w
  | UseInterestedEvents, EventsData _ => Some w
  | UseStats, StatsData _ => Some w
  | _, _ => None
  end.

(** [mutationFn] of [useSwipeEvent]. *)
Definition mutationFn (w : World) (eventId : Z) (interested : bool)
  : Axios.Config :=
  api (VITE_API_URL w) (sessionStorage w) Axios.POST
    ("/events/" +:+ Js.numToString eventId +:+ "/swipe") []
    (Axios.SwipeBody interested).

(** *** The cache at work *)

Definition freshQuery (h : Hook) : Query :=
  {| hook := h; data := None; status := pending; fetchStatus := idle;
     isInvalidated := false; failureCount := 0 |}.

Definition isIdle (q : Query) : bool :=
  match fetchStatus q with idle => true | fetching => false end.

Definition isStale (o : Options) (q : Query) : bool :=
  match data q with
  | None => true
  | Some _ =>
      isInvalidated q
      || match staleTime o with Zero => true | Infinity => false end
  end.

(** A fetch starts: the count of failures starts again, and an entry
    without data is pending again whatever its last fetch came to. *)
Definition setFetching (q : Query) : Query :=
  {| hook := hook q; data := data q;
     status := match data q with Some _ => status q | None => pending end;
     fetchStatus := fetching; isInvalidated := isInvalidated q;
     failureCount := 0 |}.

Definition setSuccess (q : Query) (p : Payload) : Query :=
  {| hook := hook q; data := Some p; status := success;
     fetchStatus := idle; isInvalidated := false; failureCount := 0 |}.

Definition setFailure (q : Query) : Query :=
  {| hook := hook q; data := data q; status := error;
     fetchStatus := idle; isInvalidated := isInvalidated q;
     failureCount := S (failureCount q) |}.

Definition setRetrying (q : Query) : Query :=
  {| hook := hook q; data := data q; status := status q;
     fetchStatus := fetching; isInvalidated := isInvalidated q;
     failureCount := S (failureCount q) |}.

Definition setInvalidated (q : Query) : Query :=
  {| hook := hook q; data := data q; status := status q;
     fetchStatus := fetchStatus q; isInvalidated := true;
     failureCount := failureCount q |}.

(** Run the query function of the entry. *)
Definition fetch (w : World) (k : QueryKey) (q : Query) : World :=
  await (setCache w (store (cache w) k (setFetching q)))
    (queryFn w (hook q)) (AwaitQueryFn k).

(** A hook mounts on its key. *)
Definition useQuery (w : World) (h : Hook) : World :=
  let k := queryKey w h in
  let o := options w h in
  let q := default (freshQuery h) (find (cache w) k) in
  let w := setCache w (store (cache w) k q) in
  if enabled o && isStale o q && isIdle q then fetch w k q else w.

(** [queryClient.invalidateQueries({ queryKey })] *)
Definition invalidate (c : QueryCache) (filter : QueryKey) : QueryCache :=
  map (fun kq => if partialMatchKey kq.1 filter
                 then (kq.1, setInvalidated kq.2) else kq) c.

(** Let go of the fetch under way for the key [k]. *)
Definition cancelOne (k : QueryKey) (h : Hook) (a : Awaiting) : Awaiting :=
  match a with
  | AwaitQueryFn k' => if decide (k' = k) then AwaitCancelledQueryFn h else a
  | _ => a
  end.

Definition cancel (w : World) (k : QueryKey) (h : Hook) : World :=
  {| version := version w; VITE_API_URL := VITE_API_URL w;
     search := search w; sessionStorage := sessionStorage w;
     cache := cache w; inflight := map (cancelOne k h) (inflight w);
     trace := trace w |}.

(** Does a refetch start a fetch for the entry?  It does for an idle
    entry and for one that is being fetched again; it leaves a first
    fetch (no data yet) to finish. *)
Definition restarts (q : Query) : bool :=
  isIdle q || match data q with Some _ => true | None => false end.

Definition refetchOne (filter : QueryKey) (w : World) (kq : QueryKey * Query)
  : World :=
  if partialMatchKey kq.1 filter
     && enabled (options w (hook kq.2)) && restarts kq.2
  then
    if isIdle kq.2 then fetch w kq.1 kq.2
    else fetch (cancel w kq.1 (hook kq.2)) kq.1 kq.2
  else w.

Definition invalidateQueries (w : World) (filter : QueryKey) : World :=
  let w := setCache w (invalidate (cache w) filter) in
  fold_left (refetchOne filter) (cache w) w.

(** [onSuccess] of [useSwipeEvent]. *)
Definition onSuccess (w : World) : World :=
  invalidateQueries w [Some "events"].

(** [mutate({ eventId, interested })] on [useSwipeEvent()]. *)
Definition mutate (w : World) (eventId : Z) (interested : bool) : World :=
  await w (mutationFn w eventId interested) AwaitMutationFn.

Definition fulfil (w : World) (i : nat) (p : Payload) : World :=
  match inflight w !! i with
  | Some (AwaitQueryFn k) =>
      match find (cache w) k with
      | Some q =>
          match queryFn_returned (takeInflight w i) (hook q) p with
          | Some w' => setCache w' (store (cache w') k (setSuccess q p))
          | None => w
          end
      | None => w
      end
  | Some (AwaitCancelledQueryFn h) =>
      default w (queryFn_returned (takeInflight w i) h p)
  | Some AwaitMutationFn =>
      match p with
      | SwipeData _ => onSuccess (takeInflight w i)
      | _ => w
      end
  | None => w
  end.

Definition reject (w : World) (i : nat) (err : AxiosError) : World :=
  match inflight w !! i with
  | Some (AwaitQueryFn k) =>
      match find (cache w) k with
      | Some q =>
          let w := takeInflight w i in
          if (failureCount q <? retry (options w (hook q)))%nat
          then await (setCache w (store (cache w) k (setRetrying q)))
                 (queryFn w (hook q)) (AwaitQueryFn k)
          else setCache w (store (cache w) k (setFailure q))
      | None => w
      end
  | Some (AwaitCancelledQueryFn _) => takeInflight w i
  | Some AwaitMutationFn =>
      (* no [onError]; a mutation is not retried *)
      takeInflight w i
  | None => w
  end.

(** *** [App.jsx]: [AppContent] *)

Definition isLoading (v : Version) (q : Query) : bool :=
  match status q, v with
  | pending, V4 => true
  | pending, V5 => negb (isIdle q)
  | _, _ => false
  end.

Definition isError (q : Query) : bool :=
  match status q with error => true | _ => false end.

Inductive View :=
| ViewLoading
| ViewAccessDenied
| ViewMain (username : string)
| ViewThrows.

Definition AppContent (w : World) : View :=
  let q := default (freshQuery UseAuth) (find (cache w) (queryKey w UseAuth)) in
  if isLoading (version w) q then ViewLoading
  else if isError q then ViewAccessDenied
  else
    match data q with
    | Some (AuthData auth) => ViewMain (auth_username auth)
    | _ => ViewThrows (* [auth] is undefined: [auth.username] throws *)
    end.

(** What the environment can do to the page.  [Dashboard] is mounted
    by [AppContent] once it shows the main screen. *)
Inductive Action :=
| MountAppContent
| MountDashboard
| Mutate (eventId : Z) (interested : bool)
| Fulfil (i : nat) (p : Payload)
| Reject (i : nat) (err : AxiosError).

Definition step (w : World) (a : Action) : World :=
  match a with
  | MountAppContent => useQuery w UseAuth
  | MountDashboard =>
      match AppContent w with
      | ViewMain _ => useQuery (useQuery w (UseEvents "upcoming")) UseStats
      | _ => w
      end
  | Mutate eventId interested => mutate w eventId interested
  | Fulfil i p => fulfil w i p
  | Reject i err => reject w i err
  end.

Definition run (w : World) (acts : list Action) : World :=
  fold_left step acts w.

(** *** [App.jsx]: the card's link and [Dashboard] *)

(** [{event.signup_link && (<a href={event.signup_link}>…)}] *)
Definition signupLink (e : Event) : option string :=
  match signup_link e with
  | Some l => if Js.truthy l then Some l else None
  | None => None
  end.

(** [stats?.field || 0] *)
Definition orZero (o : option Z) : Z :=
  match o with
  | Some n => if decide (n = 0%Z) then 0%Z else n
  | None => 0%Z
  end.

(** What [useQuery] hands to the component: [data] and [isLoading]. *)
Definition useQueryResult (w : World) (h : Hook) : option Payload * bool :=
  let q := default (freshQuery h) (find (cache w) (queryKey w h)) in
  (data q, isLoading (version w) q).

(** The list under the tiles: a card per event, keyed by its id, or
    the caught-up notice. *)
Inductive DashboardBody :=
| EventList (cards : list (Z * list (Cell * string)))
| AllCaughtUp.

Inductive DashboardView :=
| DashboardLoading
| DashboardShown (toReview interestedCount urgent total : Z)
    (body : DashboardBody).

Definition Dashboard (w : World) : DashboardView :=
  let (events, eventsLoading) := useQueryResult w (UseEvents "upcoming") in
  let (stats, statsLoading) := useQueryResult w UseStats in
  if eventsLoading || statsLoading then DashboardLoading
  else
    let stats := match stats with Some (StatsData s) => Some s | _ => None end in
    DashboardShown
      (orZero (pending_swipes <$> stats))
      (orZero (stat_interested <$> stats))
      (orZero (urgent_events <$> stats))
      (orZero (total_events <$> stats))
      (match events with
       | Some (EventsData (e :: l)) =>
           EventList (map (fun e => (id e, EventCard e)) (e :: l))
       | _ => AllCaughtUp
       end).

End Frontend.

(** ** Vocabulary of the properties *)

(** The [Authorization] header a stored value gives rise to: a bearer
    credential for a non-empty stored string, no header otherwise. *)
Definition bearer (stored : option string) : option string :=
  match stored with
  | Some userId =>
      if decide (userId = "") then None else Some ("Bearer " +:+ userId)
  | None => None
  end.

(** The storage writes among a list of effects, oldest first. *)
Definition storageWrites (es : list Effect) : list (string * string) :=
  omap (fun e => match e with StorageWrite k v => Some (k, v) | _ => None end)
    es.

(** A token exchange sent through the list client's [api]. *)
Definition isExchange (e : Effect) : bool :=
  match e with
  | Request c => isCall Axios.POST "/auth/validate-token" c
  | _ => false
  end.

Definition exchanges (es : list Effect) : nat :=
  List.length (filter (fun e => isExchange e = true) es).

Section SingleCardVocabulary.

Import EventsortUi.

(** The guard is set exactly while one swipe is under way: its request
    is outstanding or its delay is running. *)
Definition guardInv (w : World) : Prop :=
  if swiping (app w)
  then (outstandingSwipes w + timers w = 1)%nat
  else outstandingSwipes w = 0%nat /\ timers w = 0%nat.

(** The queue is loaded and [authenticate] has finished: only swipes
    can be outstanding, and the cursor is within the queue. *)
Definition loadedInv (w : World) : Prop :=
  Forall (fun k => isSwipeAwait k = true) (inflight w)
  /\ (currentIndex (app w) <= List.length (events (app w)))%nat
  /\ (swiping (app w) = true ->
      (currentIndex (app w) < List.length (events (app w)))%nat).

(** Nothing is under way. *)
Definition idle (w : World) : Prop :=
  inflight w = [] /\ timers w = 0%nat /\ swiping (app w) = false
  /\ (currentIndex (app w) <= List.length (events (app w)))%nat.

(** A page load that succeeds: the mount effect, the answer of the
    token exchange, the answer of the events request. *)
Definition boot (auth : AuthResponse) (evs : list Event) : list Action :=
  [Mount; Fulfil 0 (AuthData auth); Fulfil 0 (EventsData evs)].

(** A swipe that succeeds, from the gesture to the end of the delay. *)
Definition resolution (s : Direction * SwipeResponse) : list Action :=
  [Gesture s.1; Fulfil 0 (SwipeData s.2); Tick].







End SingleCardVocabulary.

Section ListVocabulary.

Import Frontend.

(** Every cache entry sits under the key of the hook that made it. *)
Definition keysInv (w : World) : Prop :=
  Forall (fun kq => kq.1 = queryKey w (hook kq.2)) (cache w).

(** The page, the library and the build stay the same. *)
Definition sameEnv (w w' : World) : Prop :=
  search w' = search w /\ version w' = version w
  /\ VITE_API_URL w' = VITE_API_URL w.





(** [e] is the request of an entry of [l] that the filter [f] selects. *)
Definition refetched (f : QueryKey) (l : QueryCache) (w0 : World)
    (e : Effect) : Prop :=
  exists kq, kq ∈ l /\ partialMatchKey kq.1 f = true
             /\ e = Request (queryFn w0 (hook kq.2)).

(** An entry the next mount leaves alone: it is being fetched, or it
    has data that nobody invalidated. *)
Definition settled (q : Query) : Prop :=
  fetchStatus q = fetching
  \/ (is_Some (data q) /\ isInvalidated q = false).

Definition authInv (w : World) : Prop :=
  keysInv w /\ exchanges (trace w) = 1%nat
  /\ exists q, find (cache w) (queryKey w UseAuth) = Some q /\ settled q.

(** The server answers the request (a valid token, a server that is
    up): no request is rejected. *)
Definition notReject (a : Action) : Prop :=
  match a with Reject _ _ => False | _ => True end.

Definition notMutate (a : Action) : Prop :=
  match a with Mutate _ _ => False | _ => True end.

End ListVocabulary.

(** Sample data. *)
Definition sampleEvent (n : Z) (t : string) (f : option Z) : Event :=
  {| id := n; user_id := 7; username := "ada"; title := t;
     event_type := "talk"; date := "2025-03-01"; location := Some "LT1";
     synopsis := "An evening talk."; organisation := Some "Math Society";
     fee := f; signup_link := None; deadline := None;
     target_audience := Some "all students"; refreshments := Some "none";
     key_speakers := None; raw_message := None; user_interested := None;
     date_created := "2025-02-01" |}.

Definition E1 : Event := sampleEvent 1 "Welcome tea" (Some 0%Z).
Definition E2 : Event := sampleEvent 2 "Career fair" None.

Definition demoSearch : Web.URLSearchParams := [("token", "abc")].

Definition demoAuth : AuthResponse :=
  {| auth_user_id := 7; auth_username := "ada"; auth_message := "ok" |}.

Definition demoSwipe (n : Z) (b : bool) : SwipeResponse :=
  {| success := true; event_id := n; interested := b; message := "ok" |}.

Definition demoStats : Stats :=
  {| total_events := 2; stat_interested := 0; not_interested := 0;
     pending_swipes := 2; urgent_events := 0 |}.

Definition networkError : AxiosError := {| response_data_error := None |}.

(** The single card with [E1; E2] loaded. *)
Definition loadedWorld : EventsortUi.World :=
  EventsortUi.run (EventsortUi.init demoSearch ∅) (boot demoAuth [E1; E2]).

(** The same, with the first event swiped right and the request
    answered: the delay is running. *)
Definition delayWorld : EventsortUi.World :=
  EventsortUi.run loadedWorld
    [EventsortUi.Gesture EventsortUi.right;
     EventsortUi.Fulfil 0 (SwipeData (demoSwipe 1 true))].


(** The list client with the dashboard loaded. *)
Definition dashboardWorld : Frontend.World :=
  Frontend.run (Frontend.init Frontend.V5 None demoSearch ∅)
    [Frontend.MountAppContent; Frontend.Fulfil 0 (AuthData demoAuth);
     Frontend.MountDashboard; Frontend.Fulfil 0 (EventsData [E1; E2]);
     Frontend.Fulfil 0 (StatsData demoStats)].



(** Two swipes sent one after the other and both answered: the second
    answer comes while the refetch that the first one started is under
    way. *)
Definition swipedTwiceWorld : Frontend.World :=
  Frontend.run dashboardWorld
    [Frontend.Mutate 1 true; Frontend.Mutate 2 false;
     Frontend.Fulfil 0 (SwipeData (demoSwipe 1 true));
     Frontend.Fulfil 0 (SwipeData (demoSwipe 2 false))].

(** ** Further vocabulary *)

(** [direction === 'right'] *)
Definition interestedIn (d : EventsortUi.Direction) : bool :=
  match d with EventsortUi.right => true | EventsortUi.left => false end.

(** Nothing is outstanding and no queue is loaded. *)
Definition quiescent (w : EventsortUi.World) : Prop :=
  EventsortUi.inflight w = [] /\ EventsortUi.timers w = 0%nat
  /\ EventsortUi.events (EventsortUi.app w) = [].

(** The page is past its loading, error and authenticating screens. *)
Definition ready (w : EventsortUi.World) : Prop :=
  EventsortUi.loading (EventsortUi.app w) = false
  /\ EventsortUi.error (EventsortUi.app w) = None
  /\ EventsortUi.authenticated (EventsortUi.app w) = true.

(** The swipe animation is on exactly when the guard is set. *)
Definition feedbackInv (w : EventsortUi.World) : Prop :=
  is_Some (EventsortUi.swipeDirection (EventsortUi.app w))
  <-> EventsortUi.swiping (EventsortUi.app w) = true.

(** Actions that neither mount the page again nor swipe. *)
Definition stays (a : Frontend.Action) : Prop :=
  match a with
  | Frontend.MountAppContent | Frontend.Mutate _ _ => False
  | _ => True
  end.

(** A user id is in the storage, and it was written during this page
    load. *)
Definition stored (w : Frontend.World) : Prop :=
  exists u, Web.getItem (Frontend.sessionStorage w) "user_id" = Some u
            /\ u <> "" /\ StorageWrite "user_id" u ∈ Frontend.trace w.

(** The request carries a user id written during this page load. *)
Definition written (w : Frontend.World) (c : Axios.Config) : Prop :=
  exists u, StorageWrite "user_id" u ∈ Frontend.trace w /\ u <> ""
            /\ Axios.header c "Authorization" = Some ("Bearer " +:+ u).

Definition gated (w : Frontend.World) (c : Axios.Config) : Prop :=
  Axios.method c = Axios.GET -> written w c.

(** Entries other than a pending token exchange exist only once the
    user id is stored, and every [GET] sent so far carried it. *)
Definition gateInv (w : Frontend.World) : Prop :=
  keysInv w
  /\ Forall (fun kq => Frontend.hook kq.2 <> Frontend.UseAuth
                       \/ is_Some (Frontend.data kq.2) -> stored w)
       (Frontend.cache w)
  /\ Forall (gated w) (requests (Frontend.trace w)).

(** * Properties *)

(** ** The request gateway *)

Section Gateway.

Implicit Types (st : Web.Storage) (c : Axios.Config).

Lemma truthy_spec (s : string) : Js.truthy s = true <-> s <> "".
Proof. unfold Js.truthy. case_decide; split; intros; congruence. Qed.

Lemma EventsortUi_interceptor_header st c :
  Axios.header c "Authorization" = None ->
  Axios.header (EventsortUi.interceptor st c) "Authorization"
  = bearer (Web.getItem st "user_id").
Proof.
  intros Hnone. unfold EventsortUi.interceptor, bearer.
  destruct (Web.getItem st "user_id") as [userId|]; [|done].
  unfold Js.truthy. case_decide; [done|].
  unfold Axios.header, Axios.withHeader; simpl. by rewrite lookup_insert_eq.
Qed.

Lemma Frontend_interceptor_header st c :
  Axios.header c "Authorization" = None ->
  Axios.header (Frontend.interceptor st c) "Authorization"
  = bearer (Web.getItem st "user_id").
Proof.
  intros Hnone. unfold Frontend.interceptor, Frontend.getUserId, bearer.
  destruct (Web.getItem st "user_id") as [userId|]; [|done].
  unfold Js.truthy. case_decide; [done|].
  unfold Axios.header, Axios.withHeader; simpl. by rewrite lookup_insert_eq.
Qed.

Lemma EventsortUi_api_header st m path ps b :
  Axios.header (EventsortUi.api st m path ps b) "Authorization"
  = bearer (Web.getItem st "user_id").
Proof. unfold EventsortUi.api. by apply EventsortUi_interceptor_header. Qed.

Lemma Frontend_api_header env st m path ps b :
  Axios.header (Frontend.api env st m path ps b) "Authorization"
  = bearer (Web.getItem st "user_id").
Proof. unfold Frontend.api. by apply Frontend_interceptor_header. Qed.

(** C10.  Every authenticated call of either client (events list, single
    event, swipe, interested list, stats; in the list client, every
    query function and the swipe mutation) carries the header
    [Authorization: Bearer <stored user id>] when a non-empty user id is
    in the credential store, and carries no [Authorization] header at
    all when the store holds none (or an empty one): the header is never
    sent with an empty or null value. *)
Theorem authenticated_calls_carry_bearer :
  (forall (localStorage : Web.Storage) (call : EventsortUi.ApiCall),
      Axios.header (EventsortUi.send localStorage call) "Authorization"
      = bearer (Web.getItem localStorage "user_id"))
  /\ (forall (w : Frontend.World) (h : Frontend.Hook),
      Axios.header (Frontend.queryFn w h) "Authorization"
      = bearer (Web.getItem (Frontend.sessionStorage w) "user_id"))
  /\ (forall (w : Frontend.World) (eventId : Z) (interested : bool),
      Axios.header (Frontend.mutationFn w eventId interested) "Authorization"
      = bearer (Web.getItem (Frontend.sessionStorage w) "user_id")).
Proof.
  split; [|split].
  - intros ls []; simpl; apply EventsortUi_api_header.
  - intros w []; simpl; apply Frontend_api_header.
  - intros w eventId b. apply Frontend_api_header.
Qed.

Example bearer_stored : bearer (Some "42") = Some "Bearer 42".
Proof. reflexivity. Qed.

Example bearer_absent : bearer None = None /\ bearer (Some "") = None.
Proof. split; reflexivity. Qed.

End Gateway.

(** ** Fee rendering *)

Section Fee.

Implicit Types (e : Event) (s : string).

Lemma when_elem (cond : bool) d text (x : EventsortUi.Detail * string) :
  x ∈ EventsortUi.when cond d text <-> cond = true /\ x = (d, text).
Proof.
  unfold EventsortUi.when. destruct cond.
  - rewrite list_elem_of_singleton. split; [by intros ->|by intros [_ ->]].
  - rewrite elem_of_nil. split; [done|by intros [? _]].
Qed.

Lemma unlessDefault_kind o skip d (x : EventsortUi.Detail * string) :
  x ∈ EventsortUi.unlessDefault o skip d -> x.1 = d.
Proof.
  unfold EventsortUi.unlessDefault. destruct o as [t|].
  - rewrite when_elem. by intros [_ ->].
  - by rewrite elem_of_nil.
Qed.

Lemma feeDetail_elem e s :
  (EventsortUi.DFee, s) ∈ EventsortUi.feeDetail e
  <-> exists f, fee e = Some f /\ (0 < f)%Z /\ s = "$" +:+ Js.numToString f.
Proof.
  unfold EventsortUi.feeDetail. destruct (fee e) as [f|].
  - rewrite when_elem, Z.ltb_lt. split.
    + intros [Hpos [= ->]]. eauto.
    + intros (f' & [= <-] & Hpos & ->). done.
  - rewrite elem_of_nil. split; [done|]. by intros (f & ? & _).
Qed.

(** The fee row of the single card: there is one exactly for a fee that
    is set and positive. *)
Lemma EventsortUi_card_fee e s :
  (EventsortUi.DFee, s) ∈ EventsortUi.EventCard e
  <-> exists f, fee e = Some f /\ (0 < f)%Z /\ s = "$" +:+ Js.numToString f.
Proof.
  unfold EventsortUi.EventCard. rewrite !elem_of_app, feeDetail_elem.
  split; [|by auto 10].
  intros [H|[H|[H|[H|[H|[H|H]]]]]]; try done.
  - by apply list_elem_of_singleton in H.
  - by apply list_elem_of_singleton in H.
  - destruct (organisation e); [|by apply elem_of_nil in H].
    apply when_elem in H as [_ [=]].
  - by apply unlessDefault_kind in H.
  - by apply unlessDefault_kind in H.
  - by apply unlessDefault_kind in H.
Qed.

Lemma cellIf_kind o c (x : Frontend.Cell * string) :
  x ∈ Frontend.cellIf o c -> x.1 = c.
Proof.
  unfold Frontend.cellIf. destruct o as [t|]; [destruct (Js.truthy t)|].
  - by intros ->%list_elem_of_singleton.
  - by rewrite elem_of_nil.
  - by rewrite elem_of_nil.
Qed.

(** The fee cell of the list card: there is one exactly for a fee that
    is set, and it reads [Free] for zero. *)
Lemma Frontend_card_fee e s :
  (Frontend.CFee, s) ∈ Frontend.EventCard e
  <-> exists f, fee e = Some f
        /\ s = if decide (f = 0%Z) then "Free" else "$" +:+ Js.numToString f.
Proof.
  unfold Frontend.EventCard, Frontend.feeCell. rewrite !elem_of_app. split.
  - intros [H|[H|[H|H]]].
    + by apply list_elem_of_singleton in H.
    + by apply cellIf_kind in H.
    + by apply cellIf_kind in H.
    + destruct (fee e) as [f|]; [|by apply elem_of_nil in H].
      apply list_elem_of_singleton in H as [= ->]. eauto.
  - intros (f & -> & ->). do 3 right. by apply list_elem_of_singleton.
Qed.

(** C7, as the code has it.  In the list client a fee of zero is shown
    as [Free], a positive (or negative) fee as [$fee], and a fee that is
    not set gives no fee cell; in the single-card client the fee row is
    shown only for a fee that is set and greater than zero, so a fee of
    zero and a fee that is not set both give a card without a fee
    row. *)
Theorem fee_rendering :
  forall e s,
    ((Frontend.CFee, s) ∈ Frontend.EventCard e
     <-> exists f, fee e = Some f
           /\ s = if decide (f = 0%Z) then "Free"
                  else "$" +:+ Js.numToString f)
    /\ ((EventsortUi.DFee, s) ∈ EventsortUi.EventCard e
        <-> exists f, fee e = Some f /\ (0 < f)%Z
              /\ s = "$" +:+ Js.numToString f).
Proof. intros e s. split; [apply Frontend_card_fee | apply EventsortUi_card_fee]. Qed.

(** C7 fails on the single card: the event with fee [0] and the same
    event with no fee give the same card, and no row of it says
    [Free]. *)
Lemma fee_zero_hidden_on_single_card :
  EventsortUi.EventCard (sampleEvent 1 "Welcome tea" (Some 0%Z))
  = EventsortUi.EventCard (sampleEvent 1 "Welcome tea" None)
  /\ Forall (fun row => row.2 <> "Free")
       (EventsortUi.EventCard (sampleEvent 1 "Welcome tea" (Some 0%Z))).
Proof.
  split; [reflexivity|].
  vm_compute. repeat constructor; discriminate.
Qed.

Example fee_zero_on_list_card :
  Frontend.EventCard E1
  = [(Frontend.CDate, "2025-03-01"); (Frontend.CLocation, "LT1");
     (Frontend.CFee, "Free")].
Proof. reflexivity. Qed.

Example fee_unset_on_list_card :
  Frontend.EventCard E2
  = [(Frontend.CDate, "2025-03-01"); (Frontend.CLocation, "LT1")].
Proof. reflexivity. Qed.

End Fee.

(** ** The single card: guard, cursor and failed swipes *)

Section Swipe.

Import EventsortUi.
Implicit Types (w : World) (a : Action) (d : Direction).

Lemma outstanding_delete (l : list Awaiting) i k :
  l !! i = Some k ->
  List.length (filter (fun k => isSwipeAwait k = true) l)
  = ((if isSwipeAwait k then 1 else 0)
     + List.length (filter (fun k => isSwipeAwait k = true) (delete i l)))%nat.
Proof.
  revert i. induction l as [|x l IH]; intros [|i] Hi; simplify_eq/=.
  - rewrite filter_cons. destruct (isSwipeAwait k) eqn:E; case_decide; try done.
  - rewrite !filter_cons. case_decide; simpl; rewrite (IH i Hi); lia.
Qed.

Lemma outstanding_snoc (l : list Awaiting) k :
  List.length (filter (fun k => isSwipeAwait k = true) (l ++ [k]))
  = (List.length (filter (fun k => isSwipeAwait k = true) l)
     + (if isSwipeAwait k then 1 else 0))%nat.
Proof.
  rewrite filter_app, length_app, filter_cons, filter_nil.
  destruct (isSwipeAwait k); case_decide; simpl; try done; lia.
Qed.

Lemma guardInv_step w a : guardInv w -> guardInv (step w a).
Proof.
  unfold guardInv. intros H. destruct a as [|d|i p|i err|]; simpl.
  - unfold authenticate. destruct (negb _); simpl; [done|].
    unfold outstandingSwipes in *; simpl. by rewrite outstanding_snoc, Nat.add_0_r.
  - unfold handleSwipe. destruct (swiping (app w)) eqn:Hs; simpl; [by rewrite Hs|].
    destruct (_ <=? _)%nat; [by rewrite Hs|].
    simpl. destruct (events (app w) !! currentIndex (app w)); simpl.
    + unfold outstandingSwipes in *; simpl. rewrite outstanding_snoc. simpl. lia.
    + done.
  - unfold settle. destruct (inflight w !! i) as [k|] eqn:Hk; [|done].
    pose proof (outstanding_delete _ _ _ Hk) as Hd.
    unfold outstandingSwipes in *.
    destruct k, p; simpl; try done.
    + rewrite outstanding_snoc; simpl. destruct (swiping (app w)); simpl in *; lia.
    + destruct (swiping (app w)); simpl in *; lia.
    + destruct (swiping (app w)); simpl in *; lia.
  - unfold settle. destruct (inflight w !! i) as [k|] eqn:Hk; [|done].
    pose proof (outstanding_delete _ _ _ Hk) as Hd.
    unfold outstandingSwipes in *.
    destruct k; simpl.
    + destruct (swiping (app w)); simpl in *; lia.
    + destruct (swiping (app w)); simpl in *; lia.
    + destruct (swiping (app w)); simpl in *; lia.
  - destruct (timers w) as [|n] eqn:Ht; [by rewrite Ht|]. simpl.
    unfold outstandingSwipes in *; simpl. rewrite Ht; simpl.
    destruct (swiping (app w)); simpl in *; lia.
Qed.

Lemma guardInv_init qs ls : guardInv (init qs ls).
Proof. by cbv. Qed.


Lemma run_app w acts acts' : run w (acts ++ acts') = run (run w acts) acts'.
Proof. unfold run. by rewrite fold_left_app. Qed.

Lemma guardInv_run w acts : guardInv w -> guardInv (run w acts).
Proof.
  revert w. induction acts as [|a acts IH]; intros w H; [done|].
  simpl. apply IH. by apply guardInv_step.
Qed.

Lemma guardInv_bound w : guardInv w -> (outstandingSwipes w <= 1)%nat.
Proof. unfold guardInv. destruct (swiping (app w)); lia. Qed.

Lemma guardInv_pending w :
  guardInv w -> outstandingSwipes w = 1%nat -> swiping (app w) = true.
Proof. unfold guardInv. destruct (swiping (app w)); [done|lia]. Qed.

Lemma handleSwipe_guarded w d :
  swiping (app w) = true
  \/ (List.length (events (app w)) <= currentIndex (app w))%nat ->
  handleSwipe w d = w.
Proof.
  unfold handleSwipe. intros [->|Hle]; [done|].
  apply Nat.leb_le in Hle. rewrite Hle. by rewrite orb_true_r.
Qed.

Lemma handleSwipe_accepted w d :
  swiping (app w) = false ->
  (currentIndex (app w) < List.length (events (app w)))%nat ->
  exists currentEvent,
    events (app w) !! currentIndex (app w) = Some currentEvent
    /\ handleSwipe w d
       = await
           (setApp w (setSwipeDirection (setSwiping (app w) true) (Some d)))
           (swipeEvent (localStorage w) (id currentEvent)
              (match d with right => true | left => false end))
           (AwaitSwipeEvent d currentEvent).
Proof.
  intros Hs Hlt. destruct (lookup_lt_is_Some_2 _ _ Hlt) as [e He].
  exists e. split; [done|]. unfold handleSwipe. rewrite Hs. simpl.
  apply Nat.leb_gt in Hlt. rewrite Hlt. simpl. by rewrite He.
Qed.

(** C1.  In every state the single card can reach, at most one swipe
    request is outstanding, and while one is outstanding the guard
    [swiping] is set.  While the guard is set, or the cursor is at or
    past the end of the queue, a further call of the swipe handler
    changes nothing: no state cell, no request, no log line.  When the
    handler does act, nothing was outstanding and it sends exactly one
    request, for the event under the cursor. *)
Theorem one_swipe_in_flight qs ls acts d :
  let w := run (init qs ls) acts in
  (outstandingSwipes w <= 1)%nat
  /\ (outstandingSwipes w = 1%nat -> swiping (app w) = true)
  /\ (swiping (app w) = true
      \/ (List.length (events (app w)) <= currentIndex (app w))%nat ->
      step w (Gesture d) = w)
  /\ (swiping (app w) = false ->
      (currentIndex (app w) < List.length (events (app w)))%nat ->
      outstandingSwipes w = 0%nat
      /\ outstandingSwipes (step w (Gesture d)) = 1%nat
      /\ exists currentEvent,
          events (app w) !! currentIndex (app w) = Some currentEvent
          /\ trace (step w (Gesture d))
             = trace w
               ++ [Request (swipeEvent (localStorage w) (id currentEvent)
                              (match d with right => true | left => false end))]).
Proof.
  intros w. assert (guardInv w) as Hinv by apply guardInv_run, guardInv_init.
  split; [by apply guardInv_bound|]. split; [by apply guardInv_pending|].
  split; [apply handleSwipe_guarded|].
  intros Hs Hlt. simpl.
  destruct (handleSwipe_accepted w d Hs Hlt) as (e & He & ->).
  unfold guardInv in Hinv. rewrite Hs in Hinv. destruct Hinv as [H0 _].
  split; [done|]. split; [|by exists e].
  unfold outstandingSwipes in *; simpl. rewrite outstanding_snoc, H0. done.
Qed.

Lemma swipes_only_nil (l : list Awaiting) :
  Forall (fun k => isSwipeAwait k = true) l ->
  List.length (filter (fun k => isSwipeAwait k = true) l) = 0%nat -> l = [].
Proof.
  intros Hall. destruct Hall as [|k l Hk _]; [done|].
  rewrite filter_cons. case_decide; [|done]. discriminate.
Qed.

Lemma loaded_step w a :
  a <> Mount -> guardInv w -> loadedInv w ->
  loadedInv (step w a)
  /\ events (app (step w a)) = events (app w)
  /\ (currentIndex (app (step w a)) = currentIndex (app w)
      \/ a = Tick
         /\ currentIndex (app (step w a)) = S (currentIndex (app w))).
Proof.
  intros Ha Hg (Hall & Hle & Hlt). unfold loadedInv.
  destruct a as [|d|i p|i err|]; simpl; [done|..].
  - unfold handleSwipe. destruct (swiping (app w)) eqn:Hs; simpl; [by auto|].
    destruct (_ <=? _)%nat eqn:Hb; [by rewrite Hs; auto|].
    apply Nat.leb_gt in Hb. simpl.
    destruct (events (app w) !! currentIndex (app w)); simpl.
    + repeat split; auto. apply Forall_app. by split; [|repeat constructor].
    + repeat split; auto; done.
  - unfold settle. destruct (inflight w !! i) as [k|] eqn:Hk; [|by auto].
    pose proof (Forall_lookup_1 _ _ _ _ Hall Hk) as Hswipe.
    destruct k; try discriminate. destruct p; simpl; auto.
    repeat split; auto; by apply Forall_delete.
  - unfold settle. destruct (inflight w !! i) as [k|] eqn:Hk; [|by auto].
    pose proof (Forall_lookup_1 _ _ _ _ Hall Hk) as Hswipe.
    destruct k; try discriminate. simpl.
    repeat split; auto; try done; by apply Forall_delete.
  - destruct (timers w) as [|n] eqn:Ht; [by auto|]. simpl.
    unfold guardInv in Hg. rewrite Ht in Hg.
    destruct (swiping (app w)) eqn:Hs; [|lia].
    specialize (Hlt eq_refl). repeat split; auto; done.
Qed.

Lemma loaded_run w acts :
  Forall (fun a => a <> Mount) acts -> guardInv w -> loadedInv w ->
  loadedInv (run w acts) /\ guardInv (run w acts)
  /\ events (app (run w acts)) = events (app w)
  /\ (currentIndex (app w) <= currentIndex (app (run w acts)))%nat.
Proof.
  intros Hacts. revert w.
  induction Hacts as [|a acts Ha _ IH]; intros w Hg Hl; [by auto|].
  destruct (loaded_step w a Ha Hg Hl) as (Hl' & Hev & Hidx).
  destruct (IH (step w a) (guardInv_step _ _ Hg) Hl') as (? & ? & Hev' & Hle).
  change (run w (a :: acts)) with (run (step w a) acts).
  split; [done|]. split; [done|]. split; [congruence|].
  destruct Hidx as [?|[_ ?]]; lia.
Qed.

Lemma resolution_idle w s :
  idle w ->
  idle (run w (resolution s))
  /\ events (app (run w (resolution s))) = events (app w)
  /\ currentIndex (app (run w (resolution s)))
     = if (currentIndex (app w) <? List.length (events (app w)))%nat
       then S (currentIndex (app w)) else currentIndex (app w).
Proof.
  intros (Hin & Ht & Hs & Hle). unfold resolution, run. simpl.
  destruct (currentIndex (app w) <? _)%nat eqn:Hb.
  - apply Nat.ltb_lt in Hb.
    destruct (handleSwipe_accepted w s.1 Hs Hb) as (e & He & ->).
    unfold settle; simpl. rewrite Hin; simpl.
    unfold idle; simpl. rewrite Hin. repeat split; auto.
  - apply Nat.ltb_ge in Hb. rewrite handleSwipe_guarded by auto.
    unfold settle. rewrite Hin; simpl. rewrite Ht. by repeat split.
Qed.

Lemma resolutions_cursor w (swipes : list (Direction * SwipeResponse)) :
  idle w ->
  currentIndex (app (run w (concat (map resolution swipes))))
  = Nat.min (currentIndex (app w) + List.length swipes)
      (List.length (events (app w))).
Proof.
  revert w. induction swipes as [|s swipes IH]; intros w Hidle.
  - simpl. destruct Hidle as (_ & _ & _ & Hle). lia.
  - change (concat (map resolution (s :: swipes)))
      with (resolution s ++ concat (map resolution swipes)).
    rewrite run_app.
    destruct (resolution_idle w s Hidle) as (Hidle' & Hev & Hidx).
    rewrite (IH _ Hidle'), Hev, Hidx. simpl List.length.
    destruct (_ <? _)%nat eqn:Hb;
      [apply Nat.ltb_lt in Hb | apply Nat.ltb_ge in Hb]; lia.
Qed.

Lemma boot_loaded qs ls token auth evs :
  Web.get qs "token" = Some token -> token <> "" ->
  let w := run (init qs ls) (boot auth evs) in
  idle w /\ loadedInv w /\ guardInv w
  /\ events (app w) = evs /\ currentIndex (app w) = 0%nat.
Proof.
  intros Hget Hne. unfold boot, run; simpl.
  unfold authenticate; simpl. rewrite Hget; simpl.
  apply truthy_spec in Hne. rewrite Hne; simpl.
  unfold idle, loadedInv, guardInv; simpl.
  repeat split; auto; try lia; done.
Qed.









Lemma render_card_released (s : AppState) e pos total :
  render s = ViewCard e pos total true ->
  render (setSwiping (setSwipeDirection s None) false)
  = ViewCard e pos total false.
Proof.
  unfold render; simpl. destruct (loading s); [done|].
  destruct (Js.truthyOpt (error s)); [done|].
  destruct (negb (authenticated s)); [done|].
  destruct (_ <=? _)%nat; [done|].
  destruct (events s !! currentIndex s); [|done]. by intros [= -> -> -> _].
Qed.

(** C4.  When the request of a swipe fails, the cursor and the queue are
    unchanged, so the card still shows the same event; the guard and
    the swipe direction are cleared, so the same gesture is accepted
    again and sends its request for the same event; nothing is written
    to storage, no timer is started, and the only effect is the line on
    the console: no request goes out.  In the list client a failed
    swipe mutation leaves the cache, the storage and the list of
    requests as they were: nothing is invalidated or fetched again. *)
Theorem failed_swipe_keeps_position :
  (forall w i d e err cur,
      inflight w !! i = Some (AwaitSwipeEvent d e) ->
      events (app w) !! currentIndex (app w) = Some cur ->
      let w' := step w (Reject i err) in
      currentIndex (app w') = currentIndex (app w)
      /\ events (app w') = events (app w)
      /\ swiping (app w') = false
      /\ swipeDirection (app w') = None
      /\ timers w' = timers w
      /\ localStorage w' = localStorage w
      /\ trace w' = trace w ++ [ConsoleError "Swipe error:"]
      /\ (forall pos total, render (app w) = ViewCard cur pos total true ->
             render (app w') = ViewCard cur pos total false)
      /\ (forall d',
             trace (step w' (Gesture d'))
             = trace w'
               ++ [Request (swipeEvent (localStorage w) (id cur)
                              (match d' with right => true | left => false end))]))
  /\ (forall fw j ferr,
        Frontend.inflight fw !! j = Some Frontend.AwaitMutationFn ->
        let fw' := Frontend.step fw (Frontend.Reject j ferr) in
        Frontend.cache fw' = Frontend.cache fw
        /\ Frontend.trace fw' = Frontend.trace fw
        /\ Frontend.sessionStorage fw' = Frontend.sessionStorage fw).
Proof.
  split.
  - intros w i d e err cur Hk Hcur w'. subst w'. simpl. unfold settle.
    rewrite Hk. simpl. repeat split; auto.
    + intros pos total. apply render_card_released.
    + intros d'. unfold handleSwipe; simpl.
      pose proof (lookup_lt_Some _ _ _ Hcur) as Hlt.
      apply Nat.leb_gt in Hlt. rewrite Hlt, Hcur. done.
  - intros fw j ferr Hj. simpl. unfold Frontend.reject. by rewrite Hj.
Qed.

(** C8, as the code has it.  A successful answer to a swipe starts the
    delay and leaves the guard set and the cursor in place: during the
    delay every further gesture is ignored.  The guard is cleared when
    the delay ends, by the same timer callback that moves the cursor to
    the next event. *)
Theorem guard_cleared_with_advance qs ls acts i d e r :
  let w := run (init qs ls) acts in
  inflight w !! i = Some (AwaitSwipeEvent d e) ->
  let delayed := step w (Fulfil i (SwipeData r)) in
  let advanced := step delayed Tick in
  (swiping (app delayed) = true /\ timers delayed = 1%nat
   /\ currentIndex (app delayed) = currentIndex (app w)
   /\ trace delayed
      = trace w ++ [ConsoleLog ("Swiped " +:+ directionName d +:+ " on: "
                                +:+ title e); SetTimeout 300]
   /\ forall d', step delayed (Gesture d') = delayed)
  /\ (swiping (app advanced) = false /\ timers advanced = 0%nat
      /\ currentIndex (app advanced) = S (currentIndex (app w))).
Proof.
  intros w Hk delayed advanced.
  assert (guardInv w) as Hg by apply guardInv_run, guardInv_init.
  pose proof (outstanding_delete _ _ _ Hk) as Hd. simpl in Hd.
  unfold guardInv, outstandingSwipes in Hg.
  assert (swiping (app w) = true /\ timers w = 0%nat) as [Hs Ht].
  { destruct (swiping (app w)); [split; [done|lia]|lia]. }
  subst advanced delayed. simpl. unfold settle. rewrite Hk. simpl.
  rewrite Ht, Hs. simpl. repeat split; auto.
  - by rewrite <- app_assoc.
  - intros d'. unfold handleSwipe; simpl. by rewrite Hs.
Qed.

Lemma no_token_is_terminal qs ls acts :
  Web.get qs "token" = None ->
  run (init qs ls) (Mount :: acts) = step (init qs ls) Mount.
Proof.
  intros Hget. change (run (init qs ls) (Mount :: acts))
    with (run (step (init qs ls) Mount) acts).
  simpl. unfold authenticate; simpl. rewrite Hget; simpl.
  induction acts as [|a acts IH]; [done|].
  rewrite <- IH at 2. simpl. f_equal.
  destruct a as [|d|i p|i err|]; simpl; try done.
  unfold authenticate; simpl. by rewrite Hget.
Qed.

Lemma mount_sends_exchange w token :
  Web.get (search w) "token" = Some token -> token <> "" ->
  step w Mount = await w (validateToken token) AwaitValidateToken.
Proof.
  intros Hget Hne%truthy_spec. simpl. unfold authenticate.
  rewrite Hget. simpl. by rewrite Hne.
Qed.
End Swipe.

(** ** The list client: the query cache *)

Section Queries.

Import Frontend.
Implicit Types (w : World) (c : QueryCache) (k : QueryKey) (q : Query) (h : Hook).

Lemma find_store c k q k' :
  find (store c k q) k' = if decide (k = k') then Some q else find c k'.
Proof.
  induction c as [|[k0 q0] c IH]; simpl; [done|].
  destruct (decide (k0 = k)) as [->|Hne]; simpl.
  - by destruct (decide (k = k')).
  - destruct (decide (k0 = k')) as [->|Hne'].
    + by rewrite decide_False by congruence.
    + apply IH.
Qed.


Lemma find_store_ne c k q k' : k <> k' -> find (store c k q) k' = find c k'.
Proof. intros. by rewrite find_store, decide_False. Qed.

Lemma store_id c k q : find c k = Some q -> store c k q = c.
Proof.
  induction c as [|[k0 q0] c IH]; simpl; [done|].
  destruct (decide (k0 = k)) as [->|Hne]; [by intros [= ->]|].
  intros H. by rewrite IH.
Qed.

Lemma Forall_store (P : QueryKey * Query -> Prop) c k q :
  Forall P c -> P (k, q) -> Forall P (store c k q).
Proof.
  intros Hc Hkq. induction Hc as [|[k0 q0] c H0 Hc IH]; simpl.
  - by constructor.
  - destruct (decide (k0 = k)); constructor; auto.
Qed.

Lemma find_elem c k q : find c k = Some q -> (k, q) ∈ c.
Proof.
  induction c as [|[k0 q0] c IH]; simpl; [done|].
  destruct (decide (k0 = k)) as [->|Hne].
  - intros [= ->]. apply list_elem_of_here.
  - intros H. apply list_elem_of_further. auto.
Qed.

Lemma find_invalidate c f k :
  find (invalidate c f) k
  = (fun q => if partialMatchKey k f then setInvalidated q else q)
      <$> find c k.
Proof.
  unfold invalidate. induction c as [|[k0 q0] c IH]; simpl; [done|].
  destruct (partialMatchKey k0 f) eqn:Hm; simpl;
    destruct (decide (k0 = k)) as [->|Hne]; simpl; try done.
  - by rewrite Hm.
  - by rewrite Hm.
Qed.

Lemma queryKey_env w w' h : search w' = search w -> queryKey w' h = queryKey w h.
Proof. intros H. destruct h; simpl; by rewrite ?H. Qed.


Lemma queryFn_env w w' h :
  search w' = search w -> VITE_API_URL w' = VITE_API_URL w ->
  sessionStorage w' = sessionStorage w -> queryFn w' h = queryFn w h.
Proof. intros H1 H2 H3. unfold queryFn. by rewrite H1, H2, H3. Qed.

(** What one hook's fetch does. *)
Lemma fetch_spec w k q :
  let w' := fetch w k q in
  search w' = search w /\ version w' = version w
  /\ VITE_API_URL w' = VITE_API_URL w
  /\ sessionStorage w' = sessionStorage w
  /\ cache w' = store (cache w) k (setFetching q)
  /\ inflight w' = inflight w ++ [AwaitQueryFn k]
  /\ trace w' = trace w ++ [Request (queryFn w (hook q))].
Proof. by repeat split. Qed.

Lemma refetch_fold f (l : QueryCache) w :
  let w' := fold_left (refetchOne f) l w in
  search w' = search w /\ version w' = version w
  /\ VITE_API_URL w' = VITE_API_URL w
  /\ sessionStorage w' = sessionStorage w
  /\ (forall k, find (cache w') k = find (cache w) k
        \/ exists q, (k, q) ∈ l /\ partialMatchKey k f = true
                     /\ find (cache w') k = Some (setFetching q))
  /\ (forall P : QueryKey * Query -> Prop,
        Forall P (cache w) ->
        (forall kq, kq ∈ l -> P (kq.1, setFetching kq.2)) ->
        Forall P (cache w'))
  /\ exists new, trace w' = trace w ++ new /\ Forall (refetched f l w) new.
Proof.
  revert w. induction l as [|kq l IH]; intros w; simpl.
  - repeat split; auto. exists []. by rewrite app_nil_r.
  - set (w1 := refetchOne f w kq).
    assert (search w1 = search w /\ version w1 = version w
            /\ VITE_API_URL w1 = VITE_API_URL w
            /\ sessionStorage w1 = sessionStorage w
            /\ (cache w1 = cache w /\ trace w1 = trace w
                \/ partialMatchKey kq.1 f = true
                   /\ cache w1 = store (cache w) kq.1 (setFetching kq.2)
                   /\ trace w1 = trace w ++ [Request (queryFn w (hook kq.2))]))
      as (Hs & Hv & He & Hss & Hcase).
    { subst w1. unfold refetchOne.
      destruct (partialMatchKey kq.1 f) eqn:Hm; simpl; [|by auto 10].
      destruct (enabled _ && restarts _); simpl; [|by auto 10].
      destruct (isIdle kq.2); simpl; auto 10. }
    destruct (IH w1) as (Hs' & Hv' & He' & Hss' & Hfind & Hall & new & Htr & Hnew).
    split; [congruence|]. split; [congruence|]. split; [congruence|].
    split; [congruence|]. split; [|split].
    + intros k. destruct (Hfind k) as [Heq|(q & Hq & Hm & Hf)].
      * rewrite Heq. destruct Hcase as [[-> _]|(Hm & -> & _)]; [by left|].
        rewrite find_store. case_decide as Hk; [|by left].
        right. exists kq.2. subst k. split; [|done].
        destruct kq; apply list_elem_of_here.
      * right. exists q. split; [by apply list_elem_of_further|done].
    + intros P HP Hl. apply Hall.
      * destruct Hcase as [[-> _]|(_ & -> & _)]; [done|].
        apply Forall_store; [done|]. apply Hl, list_elem_of_here.
      * intros kq' Hin. apply Hl. by apply list_elem_of_further.
    + assert (Forall (refetched f (kq :: l) w) new) as Hnew'.
      { eapply Forall_impl; [exact Hnew|].
        intros e (kq' & Hin & Hm & ->). exists kq'.
        split; [by apply list_elem_of_further|]. split; [done|].
        f_equal. by apply queryFn_env. }
      destruct Hcase as [[_ Ht]|(Hm & _ & Ht)].
      * exists new. by rewrite Htr, Ht.
      * exists (Request (queryFn w (hook kq.2)) :: new).
        rewrite Htr, Ht, <- app_assoc. split; [done|].
        constructor; [|done]. exists kq. split; [apply list_elem_of_here|done].
Qed.

Lemma keysInv_env w w' :
  search w' = search w -> cache w' = cache w -> keysInv w -> keysInv w'.
Proof.
  unfold keysInv. intros Hs -> H. eapply Forall_impl; [exact H|].
  intros kq ->. symmetry. by apply queryKey_env.
Qed.

Lemma keysInv_find w k q :
  keysInv w -> find (cache w) k = Some q -> k = queryKey w (hook q).
Proof.
  intros Hinv Hf. apply find_elem in Hf.
  unfold keysInv in Hinv. rewrite Forall_forall in Hinv. exact (Hinv _ Hf).
Qed.

Lemma keysInv_store w k q :
  keysInv w -> k = queryKey w (hook q) ->
  Forall (fun kq => kq.1 = queryKey w (hook kq.2)) (store (cache w) k q).
Proof. intros. by apply Forall_store. Qed.

Lemma keysInv_useQuery w h :
  keysInv w -> keysInv (useQuery w h) /\ sameEnv w (useQuery w h).
Proof.
  intros Hinv. unfold useQuery.
  set (k := queryKey w h).
  set (q := default (freshQuery h) (find (cache w) k)).
  assert (k = queryKey w (hook q)) as Hk.
  { subst q. destruct (find (cache w) k) as [q0|] eqn:Hf; simpl; [|done].
    by apply keysInv_find. }
  destruct (_ && _); simpl.
  - split; [|done]. unfold keysInv; simpl.
    apply Forall_store; [by apply Forall_store|done].
  - split; [|done]. unfold keysInv; simpl. by apply Forall_store.
Qed.

Lemma keysInv_invalidateQueries w f :
  keysInv w -> keysInv (invalidateQueries w f)
               /\ sameEnv w (invalidateQueries w f).
Proof.
  intros Hinv. unfold invalidateQueries.
  set (w1 := setCache w (invalidate (cache w) f)).
  assert (keysInv w1) as Hinv1.
  { unfold keysInv, w1; simpl. unfold invalidate. apply Forall_fmap.
    eapply Forall_impl; [exact Hinv|]. intros [k q] Hkq; simpl in *.
    by destruct (partialMatchKey k f). }
  destruct (refetch_fold f (cache w1) w1)
    as (Hs & Hv & He & _ & _ & Hall & _).
  split; [|by repeat split; rewrite ?Hs, ?Hv, ?He].
  unfold keysInv. eapply Forall_impl.
  - apply (Hall (fun kq => kq.1 = queryKey w1 (hook kq.2))); [exact Hinv1|].
    intros kq Hin. unfold keysInv in Hinv1. rewrite Forall_forall in Hinv1.
    exact (Hinv1 _ Hin).
  - intros kq ->. symmetry. by apply queryKey_env.
Qed.

Lemma keysInv_step w a :
  keysInv w -> keysInv (step w a) /\ sameEnv w (step w a).
Proof.
  intros Hinv. destruct a as [| |eventId b|i p|i err]; simpl.
  - by apply keysInv_useQuery.
  - destruct (AppContent w); try done.
    destruct (keysInv_useQuery w (UseEvents "upcoming") Hinv)
      as [Hev (?&?&?)].
    destruct (keysInv_useQuery _ UseStats Hev) as [Hst (?&?&?)].
    split; [done|]. repeat split; congruence.
  - done.
  - unfold fulfil. destruct (inflight w !! i) as [[k|h|]|]; [| | |done].
    + destruct (find (cache w) k) as [q|] eqn:Hf; [|done].
      pose proof (keysInv_find _ _ _ Hinv Hf) as Hk.
      destruct (hook q) eqn:Hh, p; simpl; try done;
        (split; [|done]); unfold keysInv; simpl;
        apply Forall_store; simpl; try done; by rewrite Hh.
    + by destruct h, p.
    + destruct p; try done. apply (keysInv_invalidateQueries (takeInflight w i) _ Hinv).
  - unfold reject. destruct (inflight w !! i) as [[k|h|]|]; [| | |done].
    + destruct (find (cache w) k) as [q|] eqn:Hf; [|done].
      pose proof (keysInv_find _ _ _ Hinv Hf) as Hk.
      destruct (_ <? _)%nat; simpl; (split; [|done]); unfold keysInv; simpl;
        by apply Forall_store.
    + done.
    + done.
Qed.



Lemma elem_invalidate c f k q :
  (k, q) ∈ invalidate c f -> partialMatchKey k f = true ->
  isInvalidated q = true.
Proof.
  unfold invalidate. intros ([k0 q0] & Heq & _)%list_elem_of_fmap Hm.
  simpl in Heq. destruct (partialMatchKey k0 f) eqn:Hm0.
  - by injection Heq as -> ->.
  - injection Heq as -> ->. congruence.
Qed.






























Lemma exchanges_app es es' :
  exchanges (es ++ es') = (exchanges es + exchanges es')%nat.
Proof. unfold exchanges. by rewrite filter_app, length_app. Qed.

Lemma exchanges_none es :
  Forall (fun e => isExchange e = false) es -> exchanges es = 0%nat.
Proof.
  unfold exchanges. induction 1 as [|e es He _ IH]; [done|].
  rewrite filter_cons. case_decide; [congruence|done].
Qed.

Lemma exchanges_one e : exchanges [e] = if isExchange e then 1%nat else 0%nat.
Proof.
  unfold exchanges. rewrite filter_cons, filter_nil.
  destruct (isExchange e); by case_decide.
Qed.

Lemma interceptor_route ss (cfg : Axios.Config) :
  Axios.method (interceptor ss cfg) = Axios.method cfg
  /\ Axios.url (interceptor ss cfg) = Axios.url cfg.
Proof.
  unfold interceptor. destruct (getUserId ss) as [u|]; [|done].
  by destruct (Js.truthy u).
Qed.

Lemma isCall_api env ss m path ps b m' path' :
  isCall m' path' (api env ss m path ps b)
  = isCall m' path' (Axios.mkConfig "" m path [] Axios.NoBody ∅).
Proof.
  unfold isCall, api.
  destruct (interceptor_route ss
    {| Axios.baseURL := API_BASE_URL env; Axios.method := m;
       Axios.url := path; Axios.params := ps; Axios.body := b;
       Axios.headers := ∅ |}) as [-> ->]. done.
Qed.

Lemma queryFn_exchange w h :
  isExchange (Request (queryFn w h)) = if decide (h = UseAuth) then true else false.
Proof. destruct h; simpl; by rewrite isCall_api. Qed.

Lemma mutationFn_exchange w eventId b :
  isExchange (Request (mutationFn w eventId b)) = false.
Proof. simpl. unfold mutationFn. by rewrite isCall_api. Qed.

Lemma authKey_hook w h : queryKey w h = queryKey w UseAuth -> h = UseAuth.
Proof. by destruct h. Qed.

Lemma useQuery_other w h :
  h <> UseAuth -> keysInv w ->
  find (cache (useQuery w h)) (queryKey w UseAuth)
  = find (cache w) (queryKey w UseAuth)
  /\ exchanges (trace (useQuery w h)) = exchanges (trace w).
Proof.
  intros Hh Hinv. unfold useQuery.
  set (k := queryKey w h).
  set (q := default (freshQuery h) (find (cache w) k)).
  assert (k <> queryKey w UseAuth) as Hk.
  { intros Heq. by apply Hh, (authKey_hook w). }
  assert (hook q <> UseAuth) as Hq.
  { subst q. destruct (find (cache w) k) as [q0|] eqn:Hf; simpl; [|done].
    intros Hq0. apply Hk. rewrite <- Hq0. by apply keysInv_find. }
  destruct (_ && _); simpl.
  - rewrite !find_store_ne by done. split; [done|].
    rewrite exchanges_app, exchanges_one, queryFn_exchange.
    rewrite decide_False by exact Hq. lia.
  - by rewrite find_store_ne.
Qed.

Lemma andb_false_tail (a b c : bool) : b && c = false -> a && b && c = false.
Proof. intros H. by rewrite <- andb_assoc, H, andb_false_r. Qed.

Lemma authInv_step w a : notReject a -> authInv w -> authInv (step w a).
Proof.
  intros Ha (Hinv & Hex & q & Hq & Hset).
  destruct (keysInv_step w a Hinv) as [Hinv' (Hs & _ & _)].
  split; [done|]. rewrite (queryKey_env _ _ _ Hs).
  assert (partialMatchKey (queryKey w UseAuth) [Some "events"] = false)
    as Hm by done.
  set (ka := queryKey w UseAuth) in *.
  destruct a as [| |eventId b|i p|i err]; [| | | |done]; cbn [step].
  - unfold useQuery. fold ka. rewrite Hq.
    change (default (freshQuery UseAuth) (Some q)) with q.
    rewrite (store_id _ _ _ Hq).
    assert (isStale (options w UseAuth) q && isIdle q = false) as Hno.
    { unfold isStale, isIdle. destruct Hset as [->|[[d ->] ->]]; simpl.
      - by rewrite andb_false_r.
      - done. }
    rewrite (andb_false_tail _ _ _ Hno). eauto.
  - destruct (AppContent w); eauto.
    destruct (useQuery_other w (UseEvents "upcoming")) as [Hf1 He1]; [done..|].
    destruct (keysInv_useQuery w (UseEvents "upcoming") Hinv)
      as [Hinv1 (Hs1 & _ & _)].
    destruct (useQuery_other (useQuery w (UseEvents "upcoming")) UseStats)
      as [Hf2 He2]; [done..|].
    rewrite (queryKey_env _ _ _ Hs1) in Hf2. fold ka in Hf1, Hf2.
    split; [congruence|]. exists q. split; [congruence|done].
  - split; [|by eauto]. cbn [mutate await trace].
    by rewrite exchanges_app, Hex, exchanges_one, mutationFn_exchange.
  - unfold fulfil. destruct (inflight w !! i) as [[k|h|]|]; [| | |by eauto].
    + destruct (find (cache w) k) as [q0|] eqn:Hf; [|by eauto].
      assert (find (store (cache w) k (setSuccess q0 p)) ka
              = Some (if decide (k = ka) then setSuccess q0 p else q))
        as Hstore.
      { rewrite find_store. by case_decide. }
      assert (settled (if decide (k = ka) then setSuccess q0 p else q))
        as Hset'.
      { case_decide; [|done]. right. simpl. eauto. }
      destruct (hook q0), p; simpl; eauto.
      split; [|by eauto].
      by rewrite exchanges_app, Hex, exchanges_one.
    + destruct h, p; simpl; eauto.
      split; [|by eauto].
      by rewrite exchanges_app, Hex, exchanges_one.
    + destruct p; eauto. unfold onSuccess, invalidateQueries.
      set (f := [Some "events"]) in *.
      set (w1 := setCache (takeInflight w i)
                   (invalidate (cache (takeInflight w i)) f)).
      assert (keysInv w1) as Hinv1.
      { unfold keysInv, w1; simpl. unfold invalidate. apply Forall_fmap.
        eapply Forall_impl; [exact Hinv|]. intros [k0 q0] Hkq; simpl in *.
        by destruct (partialMatchKey k0 f). }
      destruct (refetch_fold f (cache w1) w1)
        as (_ & _ & _ & _ & Hfind & _ & new & Htr & Hnew).
      split.
      * rewrite Htr, exchanges_app. cbn [w1 setCache takeInflight trace].
        rewrite Hex. rewrite exchanges_none; [lia|].
        eapply Forall_impl; [exact Hnew|].
        intros e ([k0 q0] & Hin & Hm0 & ->). cbn [fst snd] in *.
        rewrite queryFn_exchange. case_decide as Hh; [|done].
        unfold keysInv in Hinv1. rewrite Forall_forall in Hinv1.
        specialize (Hinv1 _ Hin). cbn [fst snd] in Hinv1.
        rewrite Hh in Hinv1. subst k0. by simpl in Hm0.
      * exists q. split; [|done].
        destruct (Hfind ka) as [->|(q2 & _ & Hm' & _)]; [|congruence].
        unfold w1; simpl. by rewrite find_invalidate, Hq, Hm.
Qed.

Lemma authInv_run w acts : Forall notReject acts -> authInv w -> authInv (run w acts).
Proof.
  intros Hacts. revert w. induction Hacts as [|a acts Ha _ IH]; intros w H; [done|].
  change (run w (a :: acts)) with (run (step w a) acts).
  by apply IH, authInv_step.
Qed.

Lemma first_mount_fetches v env qs ss token :
  Web.get qs "token" = Some token -> token <> "" ->
  step (init v env qs ss) MountAppContent
  = await
      (setCache (init v env qs ss)
         [([Some "auth"; Some token], setFetching (freshQuery UseAuth))])
      (queryFn (init v env qs ss) UseAuth)
      (AwaitQueryFn [Some "auth"; Some token]).
Proof.
  intros Hget Hne%truthy_spec. simpl. unfold useQuery; simpl.
  unfold getTokenFromUrl. rewrite Hget; simpl. rewrite Hne; simpl.
  unfold fetch; simpl. unfold getTokenFromUrl. rewrite Hget.
  by rewrite decide_True.
Qed.

Lemma first_mount_authInv v env qs ss token :
  Web.get qs "token" = Some token -> token <> "" ->
  authInv (step (init v env qs ss) MountAppContent).
Proof.
  intros Hget Hne. rewrite (first_mount_fetches _ _ _ _ token) by done.
  split; [|split].
  - unfold keysInv; simpl. constructor; [|constructor]. simpl.
    unfold getTokenFromUrl. by rewrite Hget.
  - unfold await. cbn [trace setCache init].
    by rewrite exchanges_app, exchanges_one, queryFn_exchange.
  - exists (setFetching (freshQuery UseAuth)). simpl.
    unfold getTokenFromUrl. rewrite Hget. rewrite decide_True by done.
    split; [done|by left].
Qed.
End Queries.

(** ** Session bootstrap *)

Section Bootstrap.


Lemma requests_app es es' : requests (es ++ es') = requests es ++ requests es'.
Proof. unfold requests. apply omap_app. Qed.

Lemma storageWrites_app es es' :
  storageWrites (es ++ es') = storageWrites es ++ storageWrites es'.
Proof. unfold storageWrites. apply omap_app. Qed.

Lemma EventsortUi_mounts qs token n :
  Web.get qs "token" = Some token -> token <> "" ->
  forall w, EventsortUi.search w = qs ->
    requests (EventsortUi.trace
                (EventsortUi.run w (repeat EventsortUi.Mount n)))
    = requests (EventsortUi.trace w)
      ++ repeat (EventsortUi.validateToken token) n.
Proof.
  intros Hget Hne. induction n as [|n IH]; intros w Hw.
  - by rewrite app_nil_r.
  - change (repeat EventsortUi.Mount (S n))
      with (EventsortUi.Mount :: repeat EventsortUi.Mount n).
    change (EventsortUi.run w (EventsortUi.Mount :: repeat EventsortUi.Mount n))
      with (EventsortUi.run (EventsortUi.step w EventsortUi.Mount)
              (repeat EventsortUi.Mount n)).
    rewrite <- Hw in Hget.
    rewrite IH, (mount_sends_exchange w token Hget Hne).
    + simpl. by rewrite requests_app, <- app_assoc.
    + by rewrite (mount_sends_exchange w token Hget Hne).
Qed.

(** C6, as the code has it.  For a page whose URL carries a token: in
    the list client the hooks mounted on the key of that token share one
    cache entry, so however often the component mounts, and whatever
    else happens while the server answers, exactly one token exchange is
    sent; in the single-card client every run of the mount effect sends
    one token exchange of its own, so [n] runs send [n] of them. *)
Theorem exchange_per_mount qs token :
  Web.get qs "token" = Some token -> token <> "" ->
  (forall v env ss acts,
      Forall notReject acts ->
      exchanges
        (Frontend.trace
           (Frontend.run (Frontend.init v env qs ss)
              (Frontend.MountAppContent :: acts)))
      = 1%nat)
  /\ (forall w,
        EventsortUi.search w = qs ->
        EventsortUi.trace (EventsortUi.step w EventsortUi.Mount)
        = EventsortUi.trace w
          ++ [Request (EventsortUi.validateToken token)])
  /\ (forall ls n,
        requests
          (EventsortUi.trace
             (EventsortUi.run (EventsortUi.init qs ls)
                (repeat EventsortUi.Mount n)))
        = repeat (EventsortUi.validateToken token) n).
Proof.
  intros Hget Hne. split; [|split].
  - intros v env ss acts Hacts.
    change (Frontend.run (Frontend.init v env qs ss)
              (Frontend.MountAppContent :: acts))
      with (Frontend.run
              (Frontend.step (Frontend.init v env qs ss)
                 Frontend.MountAppContent) acts).
    by apply (authInv_run _ _ Hacts), (first_mount_authInv _ _ _ _ token).
  - intros w Hw. rewrite <- Hw in Hget.
    by rewrite (mount_sends_exchange w token Hget Hne).
  - intros ls n. by rewrite (EventsortUi_mounts qs token n Hget Hne).
Qed.

(** C6 fails on the single card: two runs of the mount effect send two
    token exchanges. *)
Lemma double_mount_two_exchanges :
  requests
    (EventsortUi.trace
       (EventsortUi.run (EventsortUi.init demoSearch ∅)
          [EventsortUi.Mount; EventsortUi.Mount]))
  = [EventsortUi.validateToken "abc"; EventsortUi.validateToken "abc"].
Proof. reflexivity. Qed.


Lemma EventsortUi_reject_writes_nothing w i err :
  EventsortUi.localStorage (EventsortUi.step w (EventsortUi.Reject i err))
  = EventsortUi.localStorage w
  /\ storageWrites
       (EventsortUi.trace (EventsortUi.step w (EventsortUi.Reject i err)))
     = storageWrites (EventsortUi.trace w).
Proof.
  simpl. unfold EventsortUi.settle.
  destruct (EventsortUi.inflight w !! i) as [[| |d e]|]; simpl;
    rewrite ?storageWrites_app, ?app_nil_r; done.
Qed.

Lemma Frontend_reject_writes_nothing w i err :
  Frontend.sessionStorage (Frontend.step w (Frontend.Reject i err))
  = Frontend.sessionStorage w
  /\ storageWrites (Frontend.trace (Frontend.step w (Frontend.Reject i err)))
     = storageWrites (Frontend.trace w).
Proof.
  simpl. unfold Frontend.reject.
  destruct (Frontend.inflight w !! i) as [[k|h|]|]; simpl; [|done..].
  destruct (Frontend.find (Frontend.cache w) k); [|done].
  destruct (_ <? _)%nat; simpl; rewrite ?storageWrites_app, ?app_nil_r; done.
Qed.

(** C9, as the code has it.  When the token exchange succeeds, the user
    id is written to storage exactly once; the list client writes
    nothing else, the single-card client also writes the user name
    under a key of its own (two writes in all).  When the token
    exchange fails, nothing is written and the storage is what it was;
    indeed no failed request of either client ever writes to storage. *)
Theorem credential_writes qs token :
  Web.get qs "token" = Some token -> token <> "" ->
  (forall ls auth,
      let w := EventsortUi.run (EventsortUi.init qs ls)
                 [EventsortUi.Mount; EventsortUi.Fulfil 0 (AuthData auth)] in
      storageWrites (EventsortUi.trace w)
      = [("user_id", Js.numToString (auth_user_id auth));
         ("username", auth_username auth)]
      /\ EventsortUi.localStorage w
         = <["username" := auth_username auth]>
             (<["user_id" := Js.numToString (auth_user_id auth)]> ls))
  /\ (forall v env ss auth,
        let w := Frontend.run (Frontend.init v env qs ss)
                   [Frontend.MountAppContent;
                    Frontend.Fulfil 0 (AuthData auth)] in
        storageWrites (Frontend.trace w)
        = [("user_id", Js.numToString (auth_user_id auth))]
        /\ Frontend.sessionStorage w
           = <["user_id" := Js.numToString (auth_user_id auth)]> ss)
  /\ (forall ls err,
        let w := EventsortUi.run (EventsortUi.init qs ls)
                   [EventsortUi.Mount; EventsortUi.Reject 0 err] in
        storageWrites (EventsortUi.trace w) = []
        /\ EventsortUi.localStorage w = ls)
  /\ (forall v env ss err,
        let w := Frontend.run (Frontend.init v env qs ss)
                   [Frontend.MountAppContent; Frontend.Reject 0 err] in
        storageWrites (Frontend.trace w) = []
        /\ Frontend.sessionStorage w = ss
        /\ Frontend.AppContent w = Frontend.ViewAccessDenied)
  /\ (forall w i err,
        EventsortUi.localStorage (EventsortUi.step w (EventsortUi.Reject i err))
        = EventsortUi.localStorage w
        /\ storageWrites
             (EventsortUi.trace (EventsortUi.step w (EventsortUi.Reject i err)))
           = storageWrites (EventsortUi.trace w))
  /\ (forall w i err,
        Frontend.sessionStorage (Frontend.step w (Frontend.Reject i err))
        = Frontend.sessionStorage w
        /\ storageWrites
             (Frontend.trace (Frontend.step w (Frontend.Reject i err)))
           = storageWrites (Frontend.trace w)).
Proof.
  intros Hget Hne.
  split; [|split; [|split; [|split; [|split]]]].
  - intros ls auth w. subst w. unfold EventsortUi.run. cbn [fold_left].
    rewrite (mount_sends_exchange _ token) by done. done.
  - intros v env ss auth w. subst w. unfold Frontend.run. cbn [fold_left].
    rewrite (first_mount_fetches _ _ _ _ token) by done.
    simpl. unfold Frontend.fulfil; simpl. by rewrite decide_True.
  - intros ls err w. subst w. unfold EventsortUi.run. cbn [fold_left].
    rewrite (mount_sends_exchange _ token) by done. done.
  - intros v env ss err w. subst w. unfold Frontend.run. cbn [fold_left].
    rewrite (first_mount_fetches _ _ _ _ token) by done.
    simpl. unfold Frontend.reject; simpl. rewrite decide_True by done. simpl.
    unfold Frontend.AppContent; simpl. unfold Frontend.getTokenFromUrl.
    rewrite Hget, !decide_True by done. simpl.
    rewrite decide_True by done. by destruct v.
  - apply EventsortUi_reject_writes_nothing.
  - apply Frontend_reject_writes_nothing.
Qed.

(** C9 fails on the single card: a successful bootstrap makes two
    writes to storage, not one. *)
Lemma single_card_bootstrap_writes_twice :
  storageWrites
    (EventsortUi.trace
       (EventsortUi.run (EventsortUi.init demoSearch ∅)
          [EventsortUi.Mount; EventsortUi.Fulfil 0 (AuthData demoAuth)]))
  = [("user_id", "7"); ("username", "ada")].
Proof. reflexivity. Qed.

Lemma Frontend_no_token_terminal v env qs ss acts :
  Web.get qs "token" = None -> Forall notMutate acts ->
  Frontend.run (Frontend.init v env qs ss) (Frontend.MountAppContent :: acts)
  = Frontend.setCache (Frontend.init v env qs ss)
      [([Some "auth"; None], Frontend.freshQuery Frontend.UseAuth)].
Proof.
  intros Hget Hacts.
  change (Frontend.run (Frontend.init v env qs ss)
            (Frontend.MountAppContent :: acts))
    with (Frontend.run
            (Frontend.step (Frontend.init v env qs ss)
               Frontend.MountAppContent) acts).
  assert (Frontend.step (Frontend.init v env qs ss) Frontend.MountAppContent
          = Frontend.setCache (Frontend.init v env qs ss)
              [([Some "auth"; None], Frontend.freshQuery Frontend.UseAuth)])
    as ->.
  { simpl. unfold Frontend.useQuery; simpl.
    unfold Frontend.getTokenFromUrl. by rewrite Hget. }
  induction Hacts as [|a acts Ha _ IH]; [done|].
  rewrite <- IH at 2.
  change (Frontend.run ?w (a :: acts))
    with (Frontend.run (Frontend.step w a) acts). f_equal.
  destruct a as [| |eventId b|i p|i err]; simpl; try done.
  - unfold Frontend.useQuery; simpl.
    unfold Frontend.getTokenFromUrl. rewrite Hget. by simpl.
  - unfold Frontend.AppContent; simpl.
    unfold Frontend.getTokenFromUrl. rewrite Hget. simpl. by destruct v.
Qed.

(** C5.  For a URL without a [token] parameter neither client ever
    sends a request or writes to storage.  The single-card client goes
    straight to its error screen with the no-token message and stays
    there.  The list client never reaches its access-denied screen: its
    disabled query is never in error, so the page shows the loading
    screen for ever (when the library reports a query that never ran as
    loading) or runs into [auth.username] with [auth] undefined. *)
Theorem no_token_bootstrap qs :
  Web.get qs "token" = None ->
  (forall ls acts,
      let w := EventsortUi.run (EventsortUi.init qs ls)
                 (EventsortUi.Mount :: acts) in
      EventsortUi.trace w = []
      /\ EventsortUi.localStorage w = ls
      /\ EventsortUi.render (EventsortUi.app w)
         = EventsortUi.ViewError EventsortUi.noTokenMessage)
  /\ (forall v env ss acts,
        Forall notMutate acts ->
        let w := Frontend.run (Frontend.init v env qs ss)
                   (Frontend.MountAppContent :: acts) in
        Frontend.trace w = []
        /\ Frontend.sessionStorage w = ss
        /\ Frontend.AppContent w
           = match v with
             | Frontend.V4 => Frontend.ViewLoading
             | Frontend.V5 => Frontend.ViewThrows
             end
        /\ Frontend.AppContent w <> Frontend.ViewAccessDenied).
Proof.
  intros Hget. split.
  - intros ls acts w. subst w. rewrite no_token_is_terminal by done.
    simpl. unfold EventsortUi.authenticate; simpl. by rewrite Hget.
  - intros v env ss acts Hacts w. subst w.
    rewrite Frontend_no_token_terminal by done.
    unfold Frontend.AppContent; simpl.
    unfold Frontend.getTokenFromUrl. rewrite Hget. simpl.
    by destruct v.
Qed.

End Bootstrap.

(** ** The claims on concrete runs *)

Section Runs.

(** C8 fails: after the successful answer the delay is running and the
    guard is still set, the cursor has not moved, and a gesture made
    during the delay is dropped. *)
Lemma guard_held_during_delay :
  EventsortUi.timers delayWorld = 1%nat
  /\ EventsortUi.swiping (EventsortUi.app delayWorld) = true
  /\ EventsortUi.currentIndex (EventsortUi.app delayWorld) = 0%nat
  /\ EventsortUi.step delayWorld (EventsortUi.Gesture EventsortUi.left)
     = delayWorld.
Proof. repeat split; reflexivity. Qed.



(** The scenario of the single card: [E1] swiped right and recorded,
    then [E2] swiped left and the request lost. *)
Example scenario_success_then_failure :
  let w := EventsortUi.run loadedWorld
             (resolution (EventsortUi.right, demoSwipe 1 true)
              ++ [EventsortUi.Gesture EventsortUi.left;
                  EventsortUi.Reject 0 networkError]) in
  EventsortUi.currentIndex (EventsortUi.app w) = 1%nat
  /\ EventsortUi.render (EventsortUi.app w)
     = EventsortUi.ViewCard E2 2 2 false
  /\ map Axios.url (requests (EventsortUi.trace w))
     = ["https://api-production-ce2b.up.railway.app//auth/validate-token";
        "/events"; "/events/1/swipe"; "/events/2/swipe"]
  /\ map Axios.body (skipn 2 (requests (EventsortUi.trace w)))
     = [Axios.SwipeBody true; Axios.SwipeBody false].
Proof. repeat split; reflexivity. Qed.

Lemma one_swipe_in_flight_witness :
  let w := EventsortUi.step loadedWorld
             (EventsortUi.Gesture EventsortUi.right) in
  EventsortUi.outstandingSwipes w = 1%nat
  /\ EventsortUi.step w (EventsortUi.Gesture EventsortUi.right) = w.
Proof.
  destruct (one_swipe_in_flight demoSearch ∅
              (boot demoAuth [E1; E2]
               ++ [EventsortUi.Gesture EventsortUi.right])
              EventsortUi.right) as (_ & _ & Hguard & _).
  split; [reflexivity|]. apply Hguard. left. reflexivity.
Defined.


Lemma failed_swipe_keeps_position_witness :
  let w := EventsortUi.step loadedWorld
             (EventsortUi.Gesture EventsortUi.left) in
  let w' := EventsortUi.step w (EventsortUi.Reject 0 networkError) in
  EventsortUi.currentIndex (EventsortUi.app w') = 0%nat
  /\ EventsortUi.swiping (EventsortUi.app w') = false
  /\ EventsortUi.trace w'
     = EventsortUi.trace w ++ [ConsoleError "Swipe error:"].
Proof.
  destruct (proj1 failed_swipe_keeps_position
              (EventsortUi.step loadedWorld
                 (EventsortUi.Gesture EventsortUi.left))
              0%nat EventsortUi.left E1 networkError E1 eq_refl eq_refl)
    as (Hidx & _ & Hs & _ & _ & _ & Htr & _).
  exact (conj Hidx (conj Hs Htr)).
Defined.

Lemma guard_cleared_with_advance_witness :
  EventsortUi.swiping (EventsortUi.app delayWorld) = true
  /\ EventsortUi.swiping
       (EventsortUi.app (EventsortUi.step delayWorld EventsortUi.Tick))
     = false
  /\ EventsortUi.currentIndex
       (EventsortUi.app (EventsortUi.step delayWorld EventsortUi.Tick))
     = 1%nat.
Proof.
  destruct (guard_cleared_with_advance demoSearch ∅
              (boot demoAuth [E1; E2]
               ++ [EventsortUi.Gesture EventsortUi.right])
              0%nat EventsortUi.right E1 (demoSwipe 1 true) eq_refl)
    as [(Hs & _) (Hs' & _ & Hidx)].
  exact (conj Hs (conj Hs' Hidx)).
Defined.


(** A second swipe answered while the refetch of the first is under
    way: that refetch is let go (its answer, when it comes, is dropped)
    and a new one is sent, so the events are requested twice and the
    stats not at all. *)
Example second_swipe_restarts_refetch :
  Frontend.inflight swipedTwiceWorld
  = [Frontend.AwaitCancelledQueryFn (Frontend.UseEvents "upcoming");
     Frontend.AwaitQueryFn [Some "events"; Some "upcoming"]]
  /\ requests (Frontend.trace swipedTwiceWorld)
     = requests (Frontend.trace dashboardWorld)
       ++ [Frontend.mutationFn dashboardWorld 1 true;
           Frontend.mutationFn dashboardWorld 2 false;
           Frontend.queryFn dashboardWorld (Frontend.UseEvents "upcoming");
           Frontend.queryFn dashboardWorld (Frontend.UseEvents "upcoming")]
  /\ (let w := Frontend.run swipedTwiceWorld
                 [Frontend.Fulfil 0 (EventsData [E1]);
                  Frontend.Fulfil 0 (EventsData [E2])] in
      Frontend.inflight w = []
      /\ Frontend.data <$> Frontend.find (Frontend.cache w)
                             [Some "events"; Some "upcoming"]
         = Some (Some (EventsData [E2]))).
Proof. repeat split; reflexivity. Qed.

Lemma exchange_per_mount_witness :
  exchanges
    (Frontend.trace
       (Frontend.run (Frontend.init Frontend.V5 None demoSearch ∅)
          [Frontend.MountAppContent; Frontend.MountAppContent;
           Frontend.Fulfil 0 (AuthData demoAuth);
           Frontend.MountAppContent; Frontend.MountDashboard]))
  = 1%nat.
Proof.
  apply (proj1 (exchange_per_mount demoSearch "abc" eq_refl
                  ltac:(discriminate))).
  repeat constructor.
Defined.

Lemma credential_writes_witness :
  storageWrites
    (Frontend.trace
       (Frontend.run (Frontend.init Frontend.V5 None demoSearch ∅)
          [Frontend.MountAppContent; Frontend.Fulfil 0 (AuthData demoAuth)]))
  = [("user_id", "7")]
  /\ storageWrites
       (EventsortUi.trace
          (EventsortUi.run (EventsortUi.init demoSearch ∅)
             [EventsortUi.Mount; EventsortUi.Reject 0 networkError]))
     = [].
Proof.
  destruct (credential_writes demoSearch "abc" eq_refl ltac:(discriminate))
    as (_ & Hok & Hfail & _).
  split.
  - exact (proj1 (Hok Frontend.V5 None ∅ demoAuth)).
  - exact (proj1 (Hfail ∅ networkError)).
Defined.

Lemma no_token_bootstrap_witness :
  Frontend.trace
    (Frontend.run (Frontend.init Frontend.V4 None [] ∅)
       [Frontend.MountAppContent; Frontend.MountAppContent])
  = []
  /\ Frontend.AppContent
       (Frontend.run (Frontend.init Frontend.V4 None [] ∅)
          [Frontend.MountAppContent; Frontend.MountAppContent])
     <> Frontend.ViewAccessDenied
  /\ EventsortUi.render
       (EventsortUi.app
          (EventsortUi.run (EventsortUi.init [] ∅) [EventsortUi.Mount]))
     = EventsortUi.ViewError EventsortUi.noTokenMessage.
Proof.
  destruct (no_token_bootstrap [] eq_refl) as [Hcard Hlist].
  destruct (Hlist Frontend.V4 None ∅ [Frontend.MountAppContent]
              ltac:(repeat constructor)) as (Htr & _ & _ & Hview).
  destruct (Hcard ∅ []) as (_ & _ & Hrender).
  exact (conj Htr (conj Hview Hrender)).
Defined.

End Runs.

(** ** Numbers as text *)

Section Numbers.

Lemma pretty_N_go_nonempty (x : N) (s : string) :
  s <> "" -> pretty_N_go x s <> "".
Proof.
  revert s. induction (N.lt_wf_0 x) as [x _ IH]; intros s Hs.
  destruct (decide (x = 0%N)) as [->|Hx].
  - by rewrite pretty_N_go_0.
  - rewrite pretty_N_go_step by lia. apply IH; [|done].
    apply N.div_lt; lia.
Qed.

Lemma numToString_nonempty (n : Z) : Js.numToString n <> "".
Proof.
  unfold Js.numToString, pretty, pretty_Z. destruct n as [|p|p]; [done| |done].
  unfold pretty, pretty_positive, pretty, pretty_N. simpl.
  rewrite pretty_N_go_step by lia. by apply pretty_N_go_nonempty.
Qed.

(** Safe integers are told apart by their text. *)
Lemma numToString_inj (n m : Z) :
  Js.isSafeInteger n -> Js.isSafeInteger m ->
  Js.numToString n = Js.numToString m -> n = m.
Proof. intros _ _. unfold Js.numToString. apply pretty_Z_inj. Qed.

Lemma bearer_numToString (n : Z) :
  bearer (Some (Js.numToString n)) = Some ("Bearer " +:+ Js.numToString n).
Proof.
  unfold bearer. by rewrite decide_False by apply numToString_nonempty.
Qed.

End Numbers.

(** ** More on the request gateway *)

Section GatewayMore.

Implicit Types (st : Web.Storage) (c : Axios.Config).

Lemma withHeader_frame c k v :
  Axios.baseURL (Axios.withHeader c k v) = Axios.baseURL c
  /\ Axios.method (Axios.withHeader c k v) = Axios.method c
  /\ Axios.url (Axios.withHeader c k v) = Axios.url c
  /\ Axios.params (Axios.withHeader c k v) = Axios.params c
  /\ Axios.body (Axios.withHeader c k v) = Axios.body c.
Proof. done. Qed.

Lemma withHeader_twice c k v v' :
  Axios.withHeader (Axios.withHeader c k v) k v' = Axios.withHeader c k v'.
Proof. unfold Axios.withHeader; simpl. by rewrite insert_insert_eq. Qed.

(** The interceptor touches nothing but the [Authorization] header: the
    route, the parameters, the body and every other header of the
    request are what the caller gave.  The header is set from the
    store when a non-empty user id is there, replacing whatever the
    request carried; otherwise the request passes as it is.  Running
    the interceptor a second time changes nothing more, and the two
    clients' interceptors are the same function of the store. *)
Theorem interceptor_only_authorization st c :
  let c' := EventsortUi.interceptor st c in
  Axios.baseURL c' = Axios.baseURL c
  /\ Axios.method c' = Axios.method c
  /\ Axios.url c' = Axios.url c
  /\ Axios.params c' = Axios.params c
  /\ Axios.body c' = Axios.body c
  /\ (forall k, k <> "Authorization" -> Axios.header c' k = Axios.header c k)
  /\ Axios.header c' "Authorization"
     = match bearer (Web.getItem st "user_id") with
       | Some b => Some b
       | None => Axios.header c "Authorization"
       end
  /\ EventsortUi.interceptor st c' = c'
  /\ Frontend.interceptor st c = c'.
Proof.
  unfold EventsortUi.interceptor, Frontend.interceptor, Frontend.getUserId,
    bearer.
  destruct (Web.getItem st "user_id") as [u|]; simpl; [|done].
  unfold Js.truthy. case_decide; simpl; [done|].
  repeat split.
  - intros k Hk. unfold Axios.header; simpl. by rewrite lookup_insert_ne.
  - unfold Axios.header; simpl. by rewrite lookup_insert_eq.
  - apply withHeader_twice.
Qed.

(** [setUserId] and [getUserId] round-trip, for a user id that is a
    safe integer: after the user id is stored it is read back as its
    decimal text, every request of the list client carries it as the
    bearer credential, another safe integer gives a different header,
    every other key of the storage is untouched, and a second
    [setUserId] replaces the first. *)
Theorem stored_user_id_round_trip (w : Frontend.World) (userId : Z) :
  Js.isSafeInteger userId ->
  let w' := Frontend.setUserId w userId in
  Frontend.getUserId (Frontend.sessionStorage w')
  = Some (Js.numToString userId)
  /\ (forall h,
        Axios.header (Frontend.queryFn w' h) "Authorization"
        = Some ("Bearer " +:+ Js.numToString userId))
  /\ (forall eventId b,
        Axios.header (Frontend.mutationFn w' eventId b) "Authorization"
        = Some ("Bearer " +:+ Js.numToString userId))
  /\ (forall other h,
        Js.isSafeInteger other ->
        Axios.header (Frontend.queryFn (Frontend.setUserId w other) h)
          "Authorization"
        = Axios.header (Frontend.queryFn w' h) "Authorization" ->
        other = userId)
  /\ (forall k, k <> "user_id" ->
        Web.getItem (Frontend.sessionStorage w') k
        = Web.getItem (Frontend.sessionStorage w) k)
  /\ (forall other,
        Frontend.sessionStorage (Frontend.setUserId w' other)
        = Frontend.sessionStorage (Frontend.setUserId w other)).
Proof.
  intros Hsafe w'.
  assert (Hread : forall v, Frontend.getUserId
            (Frontend.sessionStorage (Frontend.setUserId w v))
          = Some (Js.numToString v)).
  { intros v. unfold Frontend.getUserId, Web.getItem; simpl.
    unfold Web.setItem. by rewrite lookup_insert_eq. }
  assert (Hq : forall v h,
            Axios.header (Frontend.queryFn (Frontend.setUserId w v) h)
              "Authorization" = Some ("Bearer " +:+ Js.numToString v)).
  { intros v h. unfold Frontend.queryFn.
    destruct h; rewrite Frontend_api_header;
      fold (Frontend.getUserId
              (Frontend.sessionStorage (Frontend.setUserId w v)));
      rewrite Hread; apply bearer_numToString. }
  split; [apply Hread|]. split; [apply Hq|]. split; [|split; [|split]].
  - intros eventId b. unfold Frontend.mutationFn.
    rewrite Frontend_api_header.
    fold (Frontend.getUserId (Frontend.sessionStorage w')).
    unfold w'. rewrite Hread. apply bearer_numToString.
  - intros other h Hother. unfold w'. rewrite !Hq. intros [= H].
    by apply numToString_inj.
  - intros k Hk. unfold Web.getItem; simpl. unfold Web.setItem.
    by rewrite lookup_insert_ne.
  - intros other. simpl. unfold Web.setItem. by rewrite insert_insert_eq.
Qed.

End GatewayMore.

(** ** More on the cards *)

Section Cards.

Implicit Types (e : Event) (s : string).

Lemma strictNe_spec (s t : string) : Js.strictNe s t = true <-> s <> t.
Proof. unfold Js.strictNe. case_decide; split; intros; congruence. Qed.

Lemma orElse_nonempty o d : d <> "" -> Js.orElse o d <> "".
Proof.
  intros Hd. unfold Js.orElse. destruct o as [t|]; [|done].
  destruct (Js.truthy t) eqn:Ht; [|done]. by apply truthy_spec.
Qed.

Lemma unlessDefault_elem o skip d (x : EventsortUi.Detail * string) :
  x ∈ EventsortUi.unlessDefault o skip d ->
  x.1 = d /\ o = Some x.2 /\ x.2 <> "" /\ x.2 <> skip.
Proof.
  unfold EventsortUi.unlessDefault. destruct o as [t|].
  - rewrite when_elem. intros [[Ht Hs]%andb_prop ->]. simpl.
    apply truthy_spec in Ht. apply strictNe_spec in Hs. done.
  - by rewrite elem_of_nil.
Qed.

(** The single card never shows an empty or placeholder row.  Every
    row but the date has text; the location row is always there and
    reads [TBC] when the event has no location; the refreshments row
    never reads [none], the audience row never [all students], the
    speakers row never [None]; and the sign-up link is offered only for
    a target that is not empty, [TBC] or [None]. *)
Theorem single_card_rows e :
  (forall d s, (d, s) ∈ EventsortUi.EventCard e ->
      d <> EventsortUi.DDate -> s <> "")
  /\ (EventsortUi.DLocation, Js.orElse (location e) "TBC")
       ∈ EventsortUi.EventCard e
  /\ (forall s, (EventsortUi.DRefreshments, s) ∈ EventsortUi.EventCard e ->
        refreshments e = Some s /\ s <> "none")
  /\ (forall s, (EventsortUi.DAudience, s) ∈ EventsortUi.EventCard e ->
        target_audience e = Some s /\ s <> "all students")
  /\ (forall s, (EventsortUi.DSpeakers, s) ∈ EventsortUi.EventCard e ->
        key_speakers e = Some s /\ s <> "None")
  /\ (forall l, EventsortUi.signupLink e = Some l ->
        signup_link e = Some l /\ l <> "" /\ l <> "TBC" /\ l <> "None").
Proof.
  assert (Hrows : forall d s, (d, s) ∈ EventsortUi.EventCard e ->
            (d = EventsortUi.DDate /\ s = date e)
            \/ (d = EventsortUi.DLocation /\ s = Js.orElse (location e) "TBC")
            \/ (d = EventsortUi.DOrganisation /\ organisation e = Some s
                /\ s <> "")
            \/ (d = EventsortUi.DFee /\ exists f, s = "$" +:+ Js.numToString f)
            \/ (d = EventsortUi.DRefreshments /\ refreshments e = Some s
                /\ s <> "" /\ s <> "none")
            \/ (d = EventsortUi.DAudience /\ target_audience e = Some s
                /\ s <> "" /\ s <> "all students")
            \/ (d = EventsortUi.DSpeakers /\ key_speakers e = Some s
                /\ s <> "" /\ s <> "None")).
  { intros d s. unfold EventsortUi.EventCard. rewrite !elem_of_app.
    intros [H|[H|[H|[H|[H|[H|H]]]]]].
    - apply list_elem_of_singleton in H as [= -> ->]. by left.
    - apply list_elem_of_singleton in H as [= -> ->]. right. by left.
    - destruct (organisation e) as [o|]; [|by apply elem_of_nil in H].
      apply when_elem in H as [Ho%truthy_spec [= -> ->]]. do 2 right. by left.
    - unfold EventsortUi.feeDetail in H.
      destruct (fee e) as [f|]; [|by apply elem_of_nil in H].
      apply when_elem in H as [_ [= -> ->]]. do 3 right. left. eauto.
    - apply unlessDefault_elem in H as (Hd & Ho & Hne & Hskip).
      simpl in *. subst d. do 4 right. by left.
    - apply unlessDefault_elem in H as (Hd & Ho & Hne & Hskip).
      simpl in *. subst d. do 5 right. by left.
    - apply unlessDefault_elem in H as (Hd & Ho & Hne & Hskip).
      simpl in *. subst d. do 6 right. done. }
  split; [|split; [|split; [|split; [|split]]]].
  - intros d s Hin Hd.
    destruct (Hrows d s Hin)
      as [[-> _]|[[_ ->]|[(_&_&?)|[(_&f&->)|[(_&_&?&_)|[(_&_&?&_)|(_&_&?&_)]]]]]];
      try done.
    by apply orElse_nonempty.
  - unfold EventsortUi.EventCard. rewrite !elem_of_app. right. left.
    by apply list_elem_of_singleton.
  - intros s Hin. destruct (Hrows _ s Hin)
      as [[? _]|[[? _]|[(?&_)|[(?&_)|[(_&?&_&?)|[(?&_)|(?&_)]]]]]]; done.
  - intros s Hin. destruct (Hrows _ s Hin)
      as [[? _]|[[? _]|[(?&_)|[(?&_)|[(?&_)|[(_&?&_&?)|(?&_)]]]]]]; done.
  - intros s Hin. destruct (Hrows _ s Hin)
      as [[? _]|[[? _]|[(?&_)|[(?&_)|[(?&_)|[(?&_)|(_&?&_&?)]]]]]]; done.
  - intros l. unfold EventsortUi.signupLink.
    destruct (signup_link e) as [t|]; [|done].
    destruct (_ && _) eqn:Hc; [|done]. intros [= ->].
    apply andb_prop in Hc as [[Ht H1]%andb_prop H2].
    apply truthy_spec in Ht. apply strictNe_spec in H1, H2. done.
Qed.

Lemma cellIf_elem o c (x : Frontend.Cell * string) :
  x ∈ Frontend.cellIf o c <-> x.1 = c /\ o = Some x.2 /\ x.2 <> "".
Proof.
  destruct x as [c' s]. unfold Frontend.cellIf. simpl.
  destruct o as [t|].
  - destruct (decide (t = "")) as [->|Hne].
    + rewrite elem_of_nil. split; [done|]. by intros (_ & [= <-] & ?).
    + rewrite (proj2 (truthy_spec t) Hne), list_elem_of_singleton.
      split; [by intros [= -> ->]|]. by intros (-> & [= ->] & _).
  - rewrite elem_of_nil. split; [done|]. by intros (_ & ? & _).
Qed.

Lemma feeCell_kind e (x : Frontend.Cell * string) :
  x ∈ Frontend.feeCell e -> x.1 = Frontend.CFee /\ x.2 <> "".
Proof.
  unfold Frontend.feeCell. destruct (fee e) as [f|]; [|by rewrite elem_of_nil].
  intros ->%list_elem_of_singleton. simpl. split; [done|]. by case_decide.
Qed.

(** The list card never shows an empty cell either: every cell but the
    date has text, an optional cell shows the field as it is, and the
    sign-up link is offered for every non-empty target (a target of
    [TBC] included). *)
Theorem list_card_cells e :
  (forall c s, (c, s) ∈ Frontend.EventCard e ->
      c <> Frontend.CDate -> s <> "")
  /\ (forall s, (Frontend.CLocation, s) ∈ Frontend.EventCard e
        <-> location e = Some s /\ s <> "")
  /\ (forall s, (Frontend.CDeadline, s) ∈ Frontend.EventCard e
        <-> deadline e = Some s /\ s <> "")
  /\ (forall l, Frontend.signupLink e = Some l
        <-> signup_link e = Some l /\ l <> "").
Proof.
  split; [|split; [|split]].
  - intros c s. unfold Frontend.EventCard. rewrite !elem_of_app.
    intros [H|[H|[H|H]]] Hc.
    + by apply list_elem_of_singleton in H as [= -> ->].
    + by apply cellIf_elem in H as (_ & _ & ?).
    + by apply cellIf_elem in H as (_ & _ & ?).
    + by apply feeCell_kind in H as [_ ?].
  - intros s. unfold Frontend.EventCard. rewrite !elem_of_app, !cellIf_elem.
    simpl. split; [|by auto 6].
    intros [H|[H|[H|H]]].
    + by apply list_elem_of_singleton in H.
    + by destruct H as (_ & ? & ?).
    + by destruct H as (? & _).
    + by apply feeCell_kind in H as [? _].
  - intros s. unfold Frontend.EventCard. rewrite !elem_of_app, !cellIf_elem.
    simpl. split; [|by auto 6].
    intros [H|[H|[H|H]]].
    + by apply list_elem_of_singleton in H.
    + by destruct H as (? & _).
    + by destruct H as (_ & ? & ?).
    + by apply feeCell_kind in H as [? _].
  - intros l. unfold Frontend.signupLink.
    destruct (signup_link e) as [t|]; [|split; [done|by intros [? _]]].
    destruct (decide (t = "")) as [->|Hne].
    + split; [done|]. by intros [[= <-] ?].
    + rewrite (proj2 (truthy_spec t) Hne).
      split; [by intros [= ->]|]. by intros [[= ->] _].
Qed.

End Cards.

(** ** More on the single card: order, exhaustion, failure *)

Section SwipeMore.
Import EventsortUi.
Implicit Types (w : World) (a : Action) (d : Direction).

Lemma resolution_effects w s :
  idle w ->
  let w' := run w (resolution s) in
  localStorage w' = localStorage w
  /\ loading (app w') = loading (app w)
  /\ error (app w') = error (app w)
  /\ authenticated (app w') = authenticated (app w)
  /\ requests (trace w')
     = requests (trace w)
       ++ match events (app w) !! currentIndex (app w) with
          | Some e => [swipeEvent (localStorage w) (id e) (interestedIn s.1)]
          | None => []
          end.
Proof.
  intros (Hin & Ht & Hs & Hle). unfold resolution, run. simpl.
  destruct (decide (currentIndex (app w) < List.length (events (app w)))%nat)
    as [Hlt|Hge].
  - destruct (handleSwipe_accepted w s.1 Hs Hlt) as (e & He & ->).
    rewrite He. unfold settle; simpl. rewrite Hin; simpl.
    repeat split; auto.
    rewrite <- !app_assoc, requests_app. simpl. by destruct s.1.
  - rewrite handleSwipe_guarded by (right; lia).
    unfold settle. rewrite Hin; simpl. rewrite Ht.
    rewrite lookup_ge_None_2 by lia. by rewrite app_nil_r.
Qed.

Lemma resolutions_requests w (swipes : list (Direction * SwipeResponse)) :
  idle w ->
  let w' := run w (concat (map resolution swipes)) in
  localStorage w' = localStorage w
  /\ (ready w -> ready w')
  /\ requests (trace w')
     = requests (trace w)
       ++ map (fun es => swipeEvent (localStorage w) (id es.1)
                           (interestedIn es.2.1))
            (zip (drop (currentIndex (app w)) (events (app w))) swipes).
Proof.
  revert w. induction swipes as [|s swipes IH]; intros w Hidle.
  - simpl. split; [done|]. split; [done|].
    by rewrite zip_with_nil_r, app_nil_r.
  - change (concat (map resolution (s :: swipes)))
      with (resolution s ++ concat (map resolution swipes)).
    rewrite run_app.
    destruct (resolution_idle w s Hidle) as (Hidle' & Hev & Hidx).
    destruct (resolution_effects w s Hidle) as (Hls & Hl & He & Ha & Hreq).
    destruct (IH _ Hidle') as (Hls' & Hready & Hreq').
    split; [congruence|]. split.
    { intros (? & ? & ?). apply Hready. repeat split; congruence. }
    rewrite Hreq', Hreq, Hev, Hidx, Hls, <- app_assoc. f_equal.
    destruct (events (app w) !! currentIndex (app w)) as [e|] eqn:Hcur.
    + rewrite (proj2 (Nat.ltb_lt _ _) (lookup_lt_Some _ _ _ Hcur)).
      by rewrite (drop_S _ _ _ Hcur).
    + apply lookup_ge_None in Hcur.
      rewrite (proj2 (Nat.ltb_ge _ _) Hcur).
      by rewrite drop_ge by done.
Qed.

Lemma boot_ready qs ls token auth evs :
  Web.get qs "token" = Some token -> token <> "" ->
  let w := run (init qs ls) (boot auth evs) in
  ready w
  /\ localStorage w
     = <["username" := auth_username auth]>
         (<["user_id" := Js.numToString (auth_user_id auth)]> ls)
  /\ trace w
     = [Request (validateToken token);
        StorageWrite "user_id" (Js.numToString (auth_user_id auth));
        StorageWrite "username" (auth_username auth);
        Request (getEvents (localStorage w) "upcoming")].
Proof.
  intros Hget Hne. unfold boot, run. cbn [fold_left].
  rewrite (mount_sends_exchange _ token) by done. done.
Qed.

Lemma boot_bearer ls (auth : AuthResponse) :
  bearer (Web.getItem
            (<["username" := auth_username auth]>
               (<["user_id" := Js.numToString (auth_user_id auth)]> ls))
            "user_id")
  = Some ("Bearer " +:+ Js.numToString (auth_user_id auth)).
Proof.
  unfold Web.getItem. rewrite lookup_insert_ne by done.
  rewrite lookup_insert_eq. apply bearer_numToString.
Qed.

Lemma EventsortUi_api_route ls m path ps b :
  let c := api ls m path ps b in
  Axios.baseURL c = API_BASE_URL /\ Axios.method c = m /\ Axios.url c = path
  /\ Axios.params c = ps /\ Axios.body c = b
  /\ Axios.header c "Content-Type" = Some "application/json".
Proof.
  unfold api, interceptor. destruct (Web.getItem ls "user_id") as [u|];
    [|done].
  destruct (Js.truthy u); [|done]. repeat split.
Qed.

(** The decisions are recorded in the order of the queue.  After any
    run of successful swipes on the loaded queue, the requests sent
    after the two of the page load are exactly one [POST
    /events/<id>/swipe] per swiped event, for the events from the front
    of the queue in their order, each with the decision of its own
    gesture ([interested] is [true] for a swipe to the right) and with
    the bearer credential of the user id the token exchange returned.
    Swipes beyond the end of the queue send nothing; what the server
    answered to a swipe (its [success] flag included) plays no part. *)
Theorem swipes_recorded_in_queue_order qs ls token auth evs swipes :
  Web.get qs "token" = Some token -> token <> "" ->
  let loaded := run (init qs ls) (boot auth evs) in
  let w := run loaded (concat (map resolution swipes)) in
  skipn 2 (requests (trace w))
  = map (fun es => swipeEvent (localStorage loaded) (id es.1)
                     (interestedIn es.2.1))
      (zip evs swipes)
  /\ forall eventId b,
      let c := swipeEvent (localStorage loaded) eventId b in
      Axios.method c = Axios.POST
      /\ Axios.url c = "/events/" +:+ Js.numToString eventId +:+ "/swipe"
      /\ Axios.body c = Axios.SwipeBody b
      /\ Axios.header c "Authorization"
         = Some ("Bearer " +:+ Js.numToString (auth_user_id auth)).
Proof.
  intros Hget Hne loaded w.
  destruct (boot_loaded qs ls token auth evs Hget Hne)
    as (Hidle & _ & _ & Hev & Hidx).
  destruct (boot_ready qs ls token auth evs Hget Hne) as (_ & Hls & Htr).
  fold loaded in Hidle, Hev, Hidx, Hls, Htr.
  destruct (resolutions_requests loaded swipes Hidle) as (_ & _ & Hreq).
  fold w in Hreq. rewrite Hidx, Hev, Htr in Hreq. simpl in Hreq.
  split; [by rewrite Hreq|].
  intros eventId b c. subst c. unfold swipeEvent.
  destruct (EventsortUi_api_route (localStorage loaded) Axios.POST
              ("/events/" +:+ Js.numToString eventId +:+ "/swipe") []
              (Axios.SwipeBody b)) as (_ & -> & -> & _ & -> & _).
  repeat split. rewrite EventsortUi_api_header, Hls. apply boot_bearer.
Qed.


Lemma resolutions_idle w (swipes : list (Direction * SwipeResponse)) :
  idle w ->
  idle (run w (concat (map resolution swipes)))
  /\ events (app (run w (concat (map resolution swipes)))) = events (app w).
Proof.
  revert w. induction swipes as [|s swipes IH]; intros w Hidle; [done|].
  change (concat (map resolution (s :: swipes)))
    with (resolution s ++ concat (map resolution swipes)).
  rewrite run_app.
  destruct (resolution_idle w s Hidle) as (Hidle' & Hev & _).
  destruct (IH _ Hidle') as [? Hev']. split; [done|congruence].
Qed.

Lemma idle_step_fixed w a :
  idle w -> (List.length (events (app w)) <= currentIndex (app w))%nat ->
  a <> Mount -> step w a = w.
Proof.
  intros (Hin & Ht & Hs & _) Hle Ha. destruct a as [|d|i p|i err|]; simpl.
  - done.
  - apply handleSwipe_guarded. by right.
  - unfold settle. by rewrite Hin.
  - unfold settle. by rewrite Hin.
  - by rewrite Ht.
Qed.

Lemma fixed_run w acts :
  (forall a, a <> Mount -> step w a = w) ->
  Forall (fun a => a <> Mount) acts -> run w acts = w.
Proof.
  intros Hfix. induction 1 as [|a acts Ha _ IH]; [done|].
  change (run w (a :: acts)) with (run (step w a) acts).
  by rewrite (Hfix a Ha).
Qed.

(** The card follows the cursor.  After [n] successful swipes on the
    loaded queue the screen shows the event at position [n] of the
    queue, with the counter [n + 1] of the queue's length and the
    buttons enabled; once every event has been swiped it shows the
    caught-up screen instead, and from then on no gesture, late answer
    or timer changes anything or sends anything: only a new page load
    leaves that screen. *)
Theorem card_follows_cursor qs ls token auth evs swipes :
  Web.get qs "token" = Some token -> token <> "" ->
  let w := run (run (init qs ls) (boot auth evs))
             (concat (map resolution swipes)) in
  render (app w)
  = match evs !! List.length swipes with
    | Some e => ViewCard e (List.length swipes + 1) (List.length evs) false
    | None => ViewCaughtUp
    end
  /\ ((List.length evs <= List.length swipes)%nat ->
      forall acts, Forall (fun a => a <> Mount) acts -> run w acts = w).
Proof.
  intros Hget Hne w.
  destruct (boot_loaded qs ls token auth evs Hget Hne)
    as (Hidle & _ & _ & Hev & Hidx).
  destruct (boot_ready qs ls token auth evs Hget Hne) as (Hready & _).
  set (loaded := run (init qs ls) (boot auth evs)) in *.
  destruct (resolutions_idle loaded swipes Hidle) as [Hidle' Hev'].
  destruct (resolutions_requests loaded swipes Hidle) as (_ & Hready' & _).
  specialize (Hready' Hready).
  pose proof (resolutions_cursor loaded swipes Hidle) as Hcur.
  fold w in Hidle', Hev', Hready', Hcur.
  rewrite Hidx, Hev in Hcur. rewrite Hev in Hev'. simpl in Hcur.
  destruct Hready' as (Hl & He & Ha). destruct Hidle' as (Hin & Ht & Hs & Hle).
  split.
  - unfold render. rewrite Hl, He, Ha, Hev', Hcur, Hs. simpl.
    destruct (decide (List.length swipes < List.length evs)%nat) as [Hlt|Hge].
    + rewrite Nat.min_l by lia.
      rewrite (proj2 (Nat.leb_gt _ _) Hlt).
      by destruct (lookup_lt_is_Some_2 evs _ Hlt) as [e ->].
    + rewrite Nat.min_r by lia. rewrite Nat.leb_refl.
      by rewrite lookup_ge_None_2 by lia.
  - intros Hall acts Hacts. apply fixed_run; [|done].
    intros a Hne'. apply idle_step_fixed; [done| |done].
    rewrite Hev', Hcur. lia.
Qed.

Lemma quiescent_step_fixed w a : quiescent w -> a <> Mount -> step w a = w.
Proof.
  intros (Hin & Ht & Hev) Ha. destruct a as [|d|i p|i err|]; simpl.
  - done.
  - apply handleSwipe_guarded. right. rewrite Hev. simpl. lia.
  - unfold settle. by rewrite Hin.
  - unfold settle. by rewrite Hin.
  - by rewrite Ht.
Qed.

Lemma render_error (s : AppState) msg :
  loading s = false -> error s = Some msg -> msg <> "" ->
  render s = ViewError msg.
Proof.
  intros Hl He Hm. unfold render. rewrite Hl, He. simpl.
  by rewrite (proj2 (truthy_spec msg) Hm).
Qed.

(** A failed bootstrap ends on the error screen and stays there.  When
    the token exchange is rejected, or the events request after it, the
    page shows the error the server named, or the generic message when
    the answer names none (or an empty one); the credential is not
    written in the first case and stays written in the second; and
    until the page is loaded again nothing more is sent, whatever the
    user does: the exchange is not retried and the events are not
    requested again. *)
Theorem failed_bootstrap_is_final qs ls token err acts :
  Web.get qs "token" = Some token -> token <> "" ->
  Forall (fun a => a <> Mount) acts ->
  let message := Js.orElse (response_data_error err) authFailedMessage in
  (let w := run (init qs ls) ([Mount; Reject 0 err] ++ acts) in
   render (app w) = ViewError message
   /\ requests (trace w) = [validateToken token]
   /\ localStorage w = ls)
  /\ (forall auth,
        let w := run (init qs ls)
                   ([Mount; Fulfil 0 (AuthData auth); Reject 0 err] ++ acts) in
        render (app w) = ViewError message
        /\ List.length (requests (trace w)) = 2%nat
        /\ Web.getItem (localStorage w) "user_id"
           = Some (Js.numToString (auth_user_id auth))).
Proof.
  intros Hget Hne Hacts message.
  assert (message <> "") as Hmsg by by apply orElse_nonempty.
  split.
  - rewrite run_app. unfold run at 2. cbn [fold_left].
    rewrite (mount_sends_exchange _ token) by done.
    rewrite fixed_run; [|by intros; apply quiescent_step_fixed|done].
    simpl. split; [|done]. by apply render_error.
  - intros auth. rewrite run_app. unfold run at 2. cbn [fold_left].
    rewrite (mount_sends_exchange _ token) by done.
    rewrite fixed_run; [|by intros; apply quiescent_step_fixed|done].
    simpl. split; [by apply render_error|]. split; [done|].
    unfold Web.getItem, Web.setItem. rewrite lookup_insert_ne by done.
    by rewrite lookup_insert_eq.
Qed.


Lemma loaded_step_storage w a :
  a <> Mount -> loadedInv w ->
  localStorage (step w a) = localStorage w
  /\ exists new,
      requests (trace (step w a)) = requests (trace w) ++ new
      /\ Forall (fun c => exists n b, c = swipeEvent (localStorage w) n b) new.
Proof.
  intros Ha (Hall & _ & _).
  assert (exists new,
            requests (trace w) = requests (trace w) ++ new
            /\ Forall (fun c => exists n b,
                         c = swipeEvent (localStorage w) n b) new) as Hnone.
  { exists []. by rewrite app_nil_r. }
  assert (forall e, isRequest e = false ->
            exists new,
              requests (trace w ++ [e]) = requests (trace w) ++ new
              /\ Forall (fun c => exists n b,
                           c = swipeEvent (localStorage w) n b) new) as Hlog.
  { intros e He. exists []. rewrite requests_app, app_nil_r.
    destruct e; try done; by rewrite app_nil_r. }
  destruct a as [|d|i p|i err|]; simpl; [done|..].
  - unfold handleSwipe. destruct (_ || _); [done|]. simpl.
    destruct (events (app w) !! currentIndex (app w)) as [e|]; simpl.
    + split; [done|]. eexists [_]. rewrite requests_app. split; [done|].
      repeat constructor. eauto.
    + split; [done|]. by apply Hlog.
  - unfold settle. destruct (inflight w !! i) as [k|] eqn:Hk; [|done].
    pose proof (Forall_lookup_1 _ _ _ _ Hall Hk) as Hswipe.
    destruct k; try discriminate. destruct p; simpl; try done.
    split; [done|]. exists []. by rewrite !requests_app, !app_nil_r.
  - unfold settle. destruct (inflight w !! i) as [k|] eqn:Hk; [|done].
    pose proof (Forall_lookup_1 _ _ _ _ Hall Hk) as Hswipe.
    destruct k; try discriminate. simpl.
    split; [done|]. by apply Hlog.
  - by destruct (timers w).
Qed.

Lemma loaded_run_storage w acts :
  Forall (fun a => a <> Mount) acts -> guardInv w -> loadedInv w ->
  localStorage (run w acts) = localStorage w
  /\ exists new,
      requests (trace (run w acts)) = requests (trace w) ++ new
      /\ Forall (fun c => exists n b, c = swipeEvent (localStorage w) n b) new.
Proof.
  intros Hacts. revert w.
  induction Hacts as [|a acts Ha _ IH]; intros w Hg Hl.
  - split; [done|]. exists []. by rewrite app_nil_r.
  - change (run w (a :: acts)) with (run (step w a) acts).
    destruct (loaded_step w a Ha Hg Hl) as (Hl' & _ & _).
    destruct (loaded_step_storage w a Ha Hl) as (Hls & new & Hreq & Hnew).
    destruct (IH _ (guardInv_step _ _ Hg) Hl') as (Hls' & new' & Hreq' & Hnew').
    split; [congruence|]. exists (new ++ new').
    rewrite Hreq', Hreq, app_assoc. split; [done|].
    apply Forall_app. split; [done|]. by rewrite Hls in Hnew'.
Qed.

(** The credential is stored before it is needed, and then used by
    everything.  A successful page load does four things in this
    order: it sends the token exchange (without any [Authorization]
    header, whatever an earlier visit left in the storage), writes the
    user id, writes the user name, and only then requests the events.
    From then on the stored credential never changes, and every
    request of the session after the exchange (the events request and
    every swipe) carries the bearer credential of the user id the
    exchange returned. *)
Theorem session_requests_carry_credential qs ls token auth evs acts :
  Web.get qs "token" = Some token -> token <> "" ->
  Forall (fun a => a <> Mount) acts ->
  let loaded := run (init qs ls) (boot auth evs) in
  let w := run loaded acts in
  trace loaded
  = [Request (validateToken token);
     StorageWrite "user_id" (Js.numToString (auth_user_id auth));
     StorageWrite "username" (auth_username auth);
     Request (getEvents (localStorage loaded) "upcoming")]
  /\ Axios.header (validateToken token) "Authorization" = None
  /\ localStorage w = localStorage loaded
  /\ Forall (fun c => Axios.header c "Authorization"
                      = Some ("Bearer "
                              +:+ Js.numToString (auth_user_id auth)))
       (skipn 1 (requests (trace w))).
Proof.
  intros Hget Hne Hacts loaded w.
  destruct (boot_loaded qs ls token auth evs Hget Hne)
    as (_ & Hl & Hg & _ & _).
  destruct (boot_ready qs ls token auth evs Hget Hne) as (_ & Hls & Htr).
  fold loaded in Hl, Hg, Hls, Htr.
  destruct (loaded_run_storage loaded acts Hacts Hg Hl)
    as (Hls' & new & Hreq & Hnew). fold w in Hls', Hreq.
  split; [exact Htr|]. split; [done|]. split; [exact Hls'|].
  rewrite Hreq, Htr. simpl. constructor.
  - unfold getEvents. rewrite EventsortUi_api_header, Hls. apply boot_bearer.
  - eapply Forall_impl; [exact Hnew|]. intros c (n & b & ->).
    unfold swipeEvent. rewrite EventsortUi_api_header, Hls. apply boot_bearer.
Qed.

Lemma feedbackInv_step w a : feedbackInv w -> feedbackInv (step w a).
Proof.
  unfold feedbackInv. intros H.
  assert (is_Some (@None Direction) <-> false = true) as Hoff.
  { split; [by intros [? ?]|done]. }
  assert (forall d, is_Some (Some d) <-> true = true) as Hon.
  { intros d. split; [done|]. by eexists. }
  destruct a as [|d|i p|i err|]; simpl.
  - unfold authenticate. by destruct (negb _).
  - unfold handleSwipe. destruct (_ || _); [done|]. simpl.
    by destruct (events (app w) !! currentIndex (app w)).
  - unfold settle. destruct (inflight w !! i) as [k|]; [|done].
    destruct k, p; simpl; done.
  - unfold settle. destruct (inflight w !! i) as [k|]; [|done].
    destruct k; simpl; done.
  - by destruct (timers w).
Qed.

Lemma feedbackInv_run w acts : feedbackInv w -> feedbackInv (run w acts).
Proof.
  revert w. induction acts as [|a acts IH]; intros w H; [done|].
  simpl. apply IH. by apply feedbackInv_step.
Qed.

(** The swipe feedback is on exactly while a swipe is under way.  In
    every state the page can reach, the card carries a swipe animation
    (a swipe direction is set) if and only if the buttons are disabled
    (the guard is set), and that is the case if and only if exactly one
    swipe is under way, its request outstanding or its delay running;
    otherwise no swipe request is outstanding and no delay is
    running. *)
Theorem swipe_feedback_tracks_guard qs ls acts :
  let w := run (init qs ls) acts in
  (is_Some (swipeDirection (app w)) <-> swiping (app w) = true)
  /\ (swiping (app w) = true
      <-> (outstandingSwipes w + timers w = 1)%nat)
  /\ (swiping (app w) = false
      <-> outstandingSwipes w = 0%nat /\ timers w = 0%nat).
Proof.
  intros w.
  assert (feedbackInv w) as Hf.
  { apply feedbackInv_run. split; [by intros [? ?]|done]. }
  assert (guardInv w) as Hg by apply guardInv_run, guardInv_init.
  split; [exact Hf|]. unfold guardInv in Hg.
  destruct (swiping (app w)); split; split; try done; lia.
Qed.

End SwipeMore.

(** ** More on the list client: failure, dashboard, gating *)

Section QueriesMore.
Import Frontend.
Implicit Types (w : World) (a : Action) (k : QueryKey) (q : Query) (h : Hook).

Lemma Frontend_fixed_run w acts (P : Action -> Prop) :
  (forall a, P a -> step w a = w) -> Forall P acts -> run w acts = w.
Proof.
  intros Hfix. induction 1 as [|a acts Ha _ IH]; [done|].
  change (run w (a :: acts)) with (run (step w a) acts).
  by rewrite (Hfix a Ha).
Qed.

Lemma orZero_id (n : Z) : orZero (Some n) = n.
Proof. unfold orZero. by case_decide. Qed.

(** A rejected token exchange ends on the access-denied screen.  The
    exchange is sent once and not retried; nothing is written to the
    storage; the dashboard is never mounted, so the cache holds the
    exchange's entry alone and no events or stats request is ever sent,
    whatever answers or failures arrive later. *)
Theorem rejected_exchange_is_access_denied v env qs ss token err acts :
  Web.get qs "token" = Some token -> token <> "" -> Forall stays acts ->
  let w := run (init v env qs ss) ([MountAppContent; Reject 0 err] ++ acts) in
  AppContent w = ViewAccessDenied
  /\ requests (trace w) = [queryFn (init v env qs ss) UseAuth]
  /\ sessionStorage w = ss
  /\ map fst (cache w) = [[Some "auth"; Some token]]
  /\ inflight w = [].
Proof.
  intros Hget Hne Hacts w. subst w.
  unfold run. rewrite fold_left_app. cbn [fold_left].
  rewrite (first_mount_fetches _ _ _ _ token) by done.
  set (w0 := step _ (Reject 0 err)).
  assert (w0 = {| version := v; VITE_API_URL := env; search := qs;
                  sessionStorage := ss;
                  cache := [([Some "auth"; Some token],
                             setFailure (setFetching (freshQuery UseAuth)))];
                  inflight := [];
                  trace := [Request (queryFn (init v env qs ss) UseAuth)] |})
    as Hw0.
  { subst w0. simpl. unfold reject; simpl.
    by rewrite !decide_True by done. }
  assert (inflight w0 = []) as Hin by by rewrite Hw0.
  assert (AppContent w0 = ViewAccessDenied) as Hview.
  { rewrite Hw0. unfold AppContent; simpl. unfold getTokenFromUrl.
    rewrite Hget, decide_True by done. by destruct v. }
  change (fold_left step acts w0) with (run w0 acts).
  rewrite (Frontend_fixed_run w0 acts stays); [|  |done].
  - split; [done|]. by rewrite Hw0.
  - intros a Ha. destruct a as [| |eventId b|i p|i err']; simpl; try done.
    + by rewrite Hview.
    + unfold fulfil. by rewrite Hin.
    + unfold reject. by rewrite Hin.
Qed.


Ltac decide_keys :=
  repeat (first [rewrite decide_True by done | rewrite decide_False by done];
          simpl).

(** The dashboard waits for both answers and then shows what the
    server sent.  Once the token exchange has succeeded and the
    dashboard is mounted, it shows the loading notice until both the
    events and the stats have arrived, in whichever order they come;
    then the four tiles show the server's counts and the list shows one
    card per event in the server's order, keyed by the event's id, or
    the caught-up notice when the server sent no event. *)
Theorem dashboard_shows_both_answers v env qs ss token auth evs stats :
  Web.get qs "token" = Some token -> token <> "" ->
  let mounted := run (init v env qs ss)
                   [MountAppContent; Fulfil 0 (AuthData auth);
                    MountDashboard] in
  let shown :=
    DashboardShown (pending_swipes stats) (stat_interested stats)
      (urgent_events stats) (total_events stats)
      (match evs with
       | [] => AllCaughtUp
       | _ => EventList (map (fun e => (id e, EventCard e)) evs)
       end) in
  AppContent mounted = ViewMain (auth_username auth)
  /\ Dashboard mounted = DashboardLoading
  /\ Dashboard (step mounted (Fulfil 0 (EventsData evs))) = DashboardLoading
  /\ Dashboard (step mounted (Fulfil 1 (StatsData stats))) = DashboardLoading
  /\ Dashboard (run mounted [Fulfil 0 (EventsData evs);
                             Fulfil 0 (StatsData stats)]) = shown
  /\ Dashboard (run mounted [Fulfil 1 (StatsData stats);
                             Fulfil 0 (EventsData evs)]) = shown.
Proof.
  intros Hget Hne mounted shown.
  assert (mounted
          = let ss' := <["user_id" := Js.numToString (auth_user_id auth)]> ss in
            {| version := v; VITE_API_URL := env; search := qs;
               sessionStorage := ss';
               cache := [([Some "auth"; Some token],
                          setSuccess (setFetching (freshQuery UseAuth))
                            (AuthData auth));
                         ([Some "events"; Some "upcoming"],
                          setFetching (freshQuery (UseEvents "upcoming")));
                         ([Some "stats"], setFetching (freshQuery UseStats))];
               inflight := [AwaitQueryFn [Some "events"; Some "upcoming"];
                            AwaitQueryFn [Some "stats"]];
               trace := [Request (queryFn (init v env qs ss) UseAuth);
                         StorageWrite "user_id"
                           (Js.numToString (auth_user_id auth));
                         Request (api env ss' Axios.GET "/events"
                                    [("filter", "upcoming");
                                     ("include_raw", "false")] Axios.NoBody);
                         Request (api env ss' Axios.GET "/stats" []
                                    Axios.NoBody)] |}) as Hm.
  { subst mounted. unfold run. cbn [fold_left].
    rewrite (first_mount_fetches _ _ _ _ token) by done.
    simpl. unfold fulfil; simpl. decide_keys.
    unfold AppContent; simpl. unfold getTokenFromUrl. rewrite Hget.
    decide_keys. destruct v; simpl; unfold useQuery, fetch; simpl;
      decide_keys; done. }
  rewrite Hm. clear Hm mounted. subst shown. simpl.
  unfold AppContent, Dashboard, useQueryResult; simpl.
  unfold getTokenFromUrl. rewrite Hget.
  split; [by decide_keys; destruct v|].
  split; [by decide_keys; destruct v|].
  unfold run, fulfil; simpl. decide_keys.
  assert (forall n : Z, (if decide (n = 0%Z) then 0%Z else n) = n) as Hz.
  { intros n. by case_decide. }
  repeat split; destruct v, evs; simpl; decide_keys;
    rewrite ?orZero_id, ?Hz; done.
Qed.


Lemma requests_Forall (Q : Axios.Config -> Prop) (es : list Effect) :
  (forall c, Request c ∈ es -> Q c) -> Forall Q (requests es).
Proof.
  intros H. apply Forall_forall. intros c Hc. apply H.
  unfold requests in Hc. apply list_elem_of_omap in Hc as (e & He & Hc).
  destruct e; try discriminate. by injection Hc as ->.
Qed.

Lemma stored_mono w w' new :
  sessionStorage w' = sessionStorage w -> trace w' = trace w ++ new ->
  stored w -> stored w'.
Proof.
  intros Hs Ht (u & Hu & Hne & Hin). exists u. rewrite Hs, Ht.
  repeat split; [done..|]. apply elem_of_app. by left.
Qed.

Lemma written_mono w w' new c :
  trace w' = trace w ++ new -> written w c -> written w' c.
Proof.
  intros Ht (u & Hin & Hh). exists u. rewrite Ht. split; [|done].
  apply elem_of_app. by left.
Qed.

Lemma api_written w env m path ps b :
  stored w -> written w (api env (sessionStorage w) m path ps b).
Proof.
  intros (u & Hu & Hne & Hin). exists u. split; [done|]. split; [done|].
  rewrite Frontend_api_header, Hu. unfold bearer. by rewrite decide_False.
Qed.

Lemma queryFn_gated w h : h = UseAuth \/ stored w -> gated w (queryFn w h).
Proof.
  intros [->|Hst].
  - intros Hget. exfalso. revert Hget. unfold queryFn, api.
    by destruct (interceptor_route (sessionStorage w)
      {| Axios.baseURL := API_BASE_URL (VITE_API_URL w);
         Axios.method := Axios.POST; Axios.url := "/auth/validate-token";
         Axios.params :=
           [("token", default "" (getTokenFromUrl (search w)))];
         Axios.body := Axios.NoBody; Axios.headers := ∅ |}) as [-> _].
  - intros _. unfold queryFn. destruct h; by apply api_written.
Qed.

Lemma gateInv_extend w w' new :
  sessionStorage w' = sessionStorage w -> search w' = search w ->
  trace w' = trace w ++ new ->
  gateInv w ->
  Forall (fun kq => kq.1 = queryKey w (hook kq.2)
                    /\ (hook kq.2 <> UseAuth \/ is_Some (data kq.2)
                        -> stored w)) (cache w') ->
  Forall (gated w') (requests new) ->
  gateInv w'.
Proof.
  intros Hs Hq Ht (Hk & Hc & Hr) Hcache Hnew. split; [|split].
  - unfold keysInv. eapply Forall_impl; [exact Hcache|].
    intros kq [-> _]. symmetry. by apply queryKey_env.
  - eapply Forall_impl; [exact Hcache|].
    intros kq [_ H] Hante. by apply (stored_mono w w' new), H.
  - rewrite Ht, requests_app. apply Forall_app. split; [|done].
    eapply Forall_impl; [exact Hr|]. intros c Hc' Hget.
    by apply (written_mono w w' new), Hc'.
Qed.

Lemma gate_entries w :
  gateInv w ->
  Forall (fun kq => kq.1 = queryKey w (hook kq.2)
                    /\ (hook kq.2 <> UseAuth \/ is_Some (data kq.2)
                        -> stored w)) (cache w).
Proof.
  intros (Hk & Hc & _). unfold keysInv in Hk.
  rewrite Forall_forall in *. intros kq Hin. split; [by apply Hk|by apply Hc].
Qed.

Lemma gate_find w k q :
  gateInv w -> find (cache w) k = Some q ->
  k = queryKey w (hook q)
  /\ (hook q <> UseAuth \/ is_Some (data q) -> stored w).
Proof.
  intros Hinv Hf. apply find_elem in Hf.
  pose proof (gate_entries w Hinv) as H. rewrite Forall_forall in H.
  exact (H _ Hf).
Qed.

Lemma useQuery_gate w h :
  gateInv w -> h = UseAuth \/ stored w ->
  gateInv (useQuery w h)
  /\ sessionStorage (useQuery w h) = sessionStorage w
  /\ exists new, trace (useQuery w h) = trace w ++ new.
Proof.
  intros Hinv Hh. unfold useQuery.
  set (k := queryKey w h).
  set (q := default (freshQuery h) (find (cache w) k)).
  assert (k = queryKey w (hook q)
          /\ (hook q <> UseAuth \/ is_Some (data q) -> stored w)) as [Hk Hq].
  { subst q. destruct (find (cache w) k) as [q0|] eqn:Hf; simpl.
    - by apply gate_find.
    - split; [done|]. intros [Hne|[? [=]]]. by destruct Hh. }
  assert (hook q = UseAuth \/ stored w) as Hfetch.
  { destruct (decide (hook q = UseAuth)); [by left|right; auto]. }
  destruct (_ && _); simpl.
  - split; [|split; [done|by eexists]].
    apply (gateInv_extend w _ [Request (queryFn w (hook q))]); try done.
    + simpl. apply Forall_store; [apply Forall_store|]; simpl; try done.
      by apply gate_entries.
    + constructor; [|constructor]. intros Hget.
      eapply (written_mono w); [done|].
      by apply (queryFn_gated w (hook q)).
  - split; [|split; [done|exists []; by rewrite app_nil_r]].
    apply (gateInv_extend w _ []); try done.
    + by rewrite app_nil_r.
    + simpl. apply Forall_store; [|done]. by apply gate_entries.
Qed.

Lemma gateInv_step w a : gateInv w -> gateInv (step w a).
Proof.
  intros Hinv. pose proof (gate_entries w Hinv) as Hent.
  destruct a as [| |eventId b|i p|i err]; cbn [step].
  - apply useQuery_gate; auto.
  - destruct (AppContent w) eqn:Hview; try done.
    assert (stored w) as Hst.
    { unfold AppContent in Hview.
      destruct (find (cache w) (queryKey w UseAuth)) as [q0|] eqn:Hf.
      - destruct (gate_find w _ _ Hinv Hf) as [_ Hq]. apply Hq. right.
        simpl in Hview. destruct (isLoading _ _); [done|].
        destruct (isError _); [done|]. by destruct (data q0).
      - simpl in Hview. by destruct (version w). }
    destruct (useQuery_gate w (UseEvents "upcoming") Hinv (or_intror Hst))
      as (Hinv1 & Hs1 & new1 & Ht1).
    apply useQuery_gate; [done|]. right. by apply (stored_mono w _ new1).
  - apply (gateInv_extend w _ [Request (mutationFn w eventId b)]); try done.
    constructor; [|constructor]. intros Hget. exfalso. revert Hget.
    simpl. unfold mutationFn, api.
    by destruct (interceptor_route (sessionStorage w)
      {| Axios.baseURL := API_BASE_URL (VITE_API_URL w);
         Axios.method := Axios.POST;
         Axios.url := "/events/" +:+ Js.numToString eventId +:+ "/swipe";
         Axios.params := []; Axios.body := Axios.SwipeBody b;
         Axios.headers := ∅ |}) as [-> _].
  - unfold fulfil. destruct (inflight w !! i) as [[k|h|]|]; [| | |done].
    + destruct (find (cache w) k) as [q|] eqn:Hf; [|done].
      destruct (gate_find w _ _ Hinv Hf) as [Hk Hq].
      destruct (hook q) eqn:Hh, p; simpl; try done.
      * (* the exchange is answered: the user id is written *)
        destruct Hinv as (_ & _ & Hr). split; [|split].
        -- unfold keysInv; simpl. apply Forall_store; simpl.
           ++ eapply Forall_impl; [exact Hent|]. by intros kq [-> _].
           ++ by rewrite Hh.
        -- assert (stored (setCache (setUserId (takeInflight w i)
                             (auth_user_id r))
                     (store (cache w) k (setSuccess q (AuthData r))))) as Hst.
           { exists (Js.numToString (auth_user_id r)). simpl.
             unfold Web.getItem, Web.setItem. rewrite lookup_insert_eq.
             split; [done|]. split; [apply numToString_nonempty|].
             apply elem_of_app. right. by apply list_elem_of_singleton. }
           simpl. apply Forall_forall. by intros.
        -- simpl. rewrite requests_app, app_nil_r.
           eapply Forall_impl; [exact Hr|]. intros c Hc Hget.
           eapply (written_mono w); [|by apply Hc]. done.
      * apply (gateInv_extend w _ []); try done; simpl.
        -- by rewrite app_nil_r.
        -- apply Forall_store; [done|]. simpl. rewrite Hh.
           split; [done|]. intros _. apply Hq. by left.
      * apply (gateInv_extend w _ []); try done; simpl.
        -- by rewrite app_nil_r.
        -- apply Forall_store; [done|]. simpl. rewrite Hh.
           split; [done|]. intros _. apply Hq. by left.
      * apply (gateInv_extend w _ []); try done; simpl.
        -- by rewrite app_nil_r.
        -- apply Forall_store; [done|]. simpl. rewrite Hh.
           split; [done|]. intros _. apply Hq. by left.
    + destruct h, p; simpl; try done.
      * (* an exchange let go of still writes the user id *)
        destruct Hinv as (Hkeys & _ & Hr). split; [exact Hkeys|split].
        -- assert (stored (setUserId (takeInflight w i) (auth_user_id r)))
             as Hst.
           { exists (Js.numToString (auth_user_id r)). simpl.
             unfold Web.getItem, Web.setItem. rewrite lookup_insert_eq.
             split; [done|]. split; [apply numToString_nonempty|].
             apply elem_of_app. right. by apply list_elem_of_singleton. }
           apply Forall_forall. by intros.
        -- simpl. rewrite requests_app, app_nil_r.
           eapply Forall_impl; [exact Hr|]. intros c Hc Hget.
           eapply (written_mono w); [|by apply Hc]. done.
    + destruct p; try done. unfold onSuccess, invalidateQueries.
      set (f := [Some "events"]).
      set (w1 := setCache (takeInflight w i)
                   (invalidate (cache (takeInflight w i)) f)).
      assert (Forall (fun kq => kq.1 = queryKey w (hook kq.2)
                /\ (hook kq.2 <> UseAuth \/ is_Some (data kq.2) -> stored w))
                (cache w1)) as Hent1.
      { unfold w1; simpl. unfold invalidate. apply Forall_fmap.
        eapply Forall_impl; [exact Hent|]. intros [k0 q0] Hkq; simpl in *.
        by destruct (partialMatchKey k0 f). }
      destruct (refetch_fold f (cache w1) w1)
        as (Hs & _ & _ & Hss & _ & Hall & new & Htr & Hnew).
      apply (gateInv_extend w _ new); try done.
      * apply Hall; [done|]. intros kq Hin.
        rewrite Forall_forall in Hent1. exact (Hent1 _ Hin).
      * apply requests_Forall. intros c Hc.
        rewrite Forall_forall in Hnew.
        destruct (Hnew _ Hc) as ([k0 q0] & Hin & Hm & [= ->]).
        rewrite Forall_forall in Hent1.
        destruct (Hent1 _ Hin) as [Hk0 Hst0]. simpl in *.
        intros Hget. eapply (written_mono w); [exact Htr|].
        apply (queryFn_gated w (hook q0)); [|exact Hget].
        right. apply Hst0. left.
        intros Hh. rewrite Hh in Hk0. subst k0. by simpl in Hm.
  - unfold reject. destruct (inflight w !! i) as [[k|h|]|]; [| | |done].
    + destruct (find (cache w) k) as [q|] eqn:Hf; [|done].
      destruct (gate_find w _ _ Hinv Hf) as [Hk Hq].
      destruct (_ <? _)%nat eqn:Hretry.
      * assert (hook q <> UseAuth) as Hh.
        { intros Hh. rewrite Hh in Hretry. simpl in Hretry.
          apply Nat.ltb_lt in Hretry. lia. }
        apply (gateInv_extend w _ [Request (queryFn w (hook q))]); try done.
        -- simpl. apply Forall_store; [done|]. simpl. split; [done|].
           intros _. apply Hq. by left.
        -- constructor; [|constructor]. intros Hget.
           eapply (written_mono w); [done|].
           apply (queryFn_gated w (hook q)); [|exact Hget].
           right. apply Hq. by left.
      * apply (gateInv_extend w _ []); try done; simpl.
        -- by rewrite app_nil_r.
        -- apply Forall_store; [done|]. simpl. by split.
    + apply (gateInv_extend w _ []); try done; simpl.
      * by rewrite app_nil_r.
    + apply (gateInv_extend w _ []); try done; simpl.
      * by rewrite app_nil_r.
Qed.

Lemma gateInv_run w acts : gateInv w -> gateInv (run w acts).
Proof.
  revert w. induction acts as [|a acts IH]; intros w H; [done|].
  change (run w (a :: acts)) with (run (step w a) acts).
  by apply IH, gateInv_step.
Qed.

(** No events or stats request leaves before the credential is there.
    In every run of the page, whatever the storage held when it was
    loaded, every [GET] the list client sends (the events of any
    filter, the interested list, the stats, first fetches, retries and
    refetches alike) carries as its bearer credential a user id that a
    token exchange of this page load has written to the storage before
    the request was made. *)
Theorem queries_wait_for_credential v env qs ss acts :
  let w := run (init v env qs ss) acts in
  Forall (fun c => Axios.method c = Axios.GET ->
                   exists u,
                     StorageWrite "user_id" u ∈ trace w
                     /\ u <> ""
                     /\ Axios.header c "Authorization"
                        = Some ("Bearer " +:+ u))
    (requests (trace w)).
Proof.
  intros w.
  assert (gateInv w) as (_ & _ & Hr).
  { apply gateInv_run. split; [constructor|]. split; constructor. }
  eapply Forall_impl; [exact Hr|]. intros c Hc Hget. exact (Hc Hget).
Qed.

End QueriesMore.

(** ** Edge cases of paths and tokens *)

Section Edges.

Lemma string_length_app (s t : string) :
  String.length (s +:+ t) = (String.length s + String.length t)%nat.
Proof.
  induction s as [|a s IH]; [done|].
  change (String a s +:+ t) with (String a (s +:+ t)). simpl. by rewrite IH.
Qed.

Lemma string_app_cancel_r (s1 s2 t : string) :
  s1 +:+ t = s2 +:+ t -> s1 = s2.
Proof.
  revert s2. induction s1 as [|a s1 IH]; intros [|b s2] H; [done|..].
  - apply (f_equal String.length) in H.
    rewrite !string_length_app in H. simpl in H. lia.
  - apply (f_equal String.length) in H.
    rewrite !string_length_app in H. simpl in H. lia.
  - change (String a (s1 +:+ t) = String b (s2 +:+ t)) in H.
    injection H as -> H. f_equal. by apply IH.
Qed.

Lemma event_path_inj (n m : Z) (suffix : string) :
  Js.isSafeInteger n -> Js.isSafeInteger m ->
  "/events/" +:+ Js.numToString n +:+ suffix
  = "/events/" +:+ Js.numToString m +:+ suffix -> n = m.
Proof.
  intros Hn Hm H. apply (inj (String.append "/events/")) in H.
  apply string_app_cancel_r in H. by apply numToString_inj.
Qed.

(** The path of a request names its event and no other, for event ids
    that are safe integers: two swipe requests go to the same path only
    when they are for the same event id, in the single-card client and
    in the list client alike, and so do two requests for a single
    event. *)
Theorem event_paths_identify_event :
  (forall ls n m b b',
      Js.isSafeInteger n -> Js.isSafeInteger m ->
      Axios.url (EventsortUi.swipeEvent ls n b)
      = Axios.url (EventsortUi.swipeEvent ls m b') -> n = m)
  /\ (forall ls n m r r',
        Js.isSafeInteger n -> Js.isSafeInteger m ->
        Axios.url (EventsortUi.getEvent ls n r)
        = Axios.url (EventsortUi.getEvent ls m r') -> n = m)
  /\ (forall w n m b b',
        Js.isSafeInteger n -> Js.isSafeInteger m ->
        Axios.url (Frontend.mutationFn w n b)
        = Axios.url (Frontend.mutationFn w m b') -> n = m).
Proof.
  split; [|split].
  - intros ls n m b b' Hn Hm. unfold EventsortUi.swipeEvent.
    destruct (EventsortUi_api_route ls Axios.POST
      ("/events/" +:+ Js.numToString n +:+ "/swipe") [] (Axios.SwipeBody b))
      as (_ & _ & -> & _).
    destruct (EventsortUi_api_route ls Axios.POST
      ("/events/" +:+ Js.numToString m +:+ "/swipe") [] (Axios.SwipeBody b'))
      as (_ & _ & -> & _).
    by apply event_path_inj.
  - intros ls n m r r' Hn Hm. unfold EventsortUi.getEvent.
    destruct (EventsortUi_api_route ls Axios.GET
      ("/events/" +:+ Js.numToString n)
      [("include_raw", Js.boolToString r)] Axios.NoBody) as (_ & _ & -> & _).
    destruct (EventsortUi_api_route ls Axios.GET
      ("/events/" +:+ Js.numToString m)
      [("include_raw", Js.boolToString r')] Axios.NoBody)
      as (_ & _ & -> & _).
    intros H. apply (inj (String.append "/events/")) in H.
    by apply numToString_inj.
  - intros w n m b b' Hn Hm. unfold Frontend.mutationFn, Frontend.api.
    destruct (interceptor_route (Frontend.sessionStorage w)
      {| Axios.baseURL := Frontend.API_BASE_URL (Frontend.VITE_API_URL w);
         Axios.method := Axios.POST;
         Axios.url := "/events/" +:+ Js.numToString n +:+ "/swipe";
         Axios.params := []; Axios.body := Axios.SwipeBody b;
         Axios.headers := ∅ |}) as [_ ->].
    destruct (interceptor_route (Frontend.sessionStorage w)
      {| Axios.baseURL := Frontend.API_BASE_URL (Frontend.VITE_API_URL w);
         Axios.method := Axios.POST;
         Axios.url := "/events/" +:+ Js.numToString m +:+ "/swipe";
         Axios.params := []; Axios.body := Axios.SwipeBody b';
         Axios.headers := ∅ |}) as [_ ->].
    by apply event_path_inj.
Qed.

(** An empty token is no token.  For a URL whose [token] parameter is
    there but empty, both clients behave as for a URL without the
    parameter: no request is ever sent and nothing is written; the
    single card shows its error screen with the no-token message, the
    list client never shows its access-denied screen. *)
Theorem empty_token_is_no_token qs :
  Web.get qs "token" = Some "" ->
  (forall ls acts,
      let w := EventsortUi.run (EventsortUi.init qs ls)
                 (EventsortUi.Mount :: acts) in
      EventsortUi.trace w = []
      /\ EventsortUi.localStorage w = ls
      /\ EventsortUi.render (EventsortUi.app w)
         = EventsortUi.ViewError EventsortUi.noTokenMessage)
  /\ (forall v env ss acts,
        Forall notMutate acts ->
        let w := Frontend.run (Frontend.init v env qs ss)
                   (Frontend.MountAppContent :: acts) in
        Frontend.trace w = []
        /\ Frontend.sessionStorage w = ss
        /\ Frontend.AppContent w
           = match v with
             | Frontend.V4 => Frontend.ViewLoading
             | Frontend.V5 => Frontend.ViewThrows
             end).
Proof.
  intros Hget. split.
  - intros ls acts w. subst w.
    change (EventsortUi.run (EventsortUi.init qs ls) (EventsortUi.Mount :: acts))
      with (EventsortUi.run
              (EventsortUi.step (EventsortUi.init qs ls) EventsortUi.Mount)
              acts).
    assert (EventsortUi.step (EventsortUi.init qs ls) EventsortUi.Mount
            = EventsortUi.setApp (EventsortUi.init qs ls)
                (EventsortUi.setLoading
                   (EventsortUi.setError EventsortUi.initialState
                      (Some EventsortUi.noTokenMessage)) false)) as ->.
    { simpl. unfold EventsortUi.authenticate; simpl. by rewrite Hget. }
    set (w0 := EventsortUi.setApp _ _).
    assert (EventsortUi.run w0 acts = w0) as ->; [|done].
    induction acts as [|a acts IH]; [done|].
    rewrite <- IH at 2.
    change (EventsortUi.run w0 (a :: acts))
      with (EventsortUi.run (EventsortUi.step w0 a) acts). f_equal.
    destruct a as [|d|i p|i err|]; simpl; try done.
    unfold EventsortUi.authenticate; simpl. by rewrite Hget.
  - intros v env ss acts Hacts w. subst w.
    change (Frontend.run (Frontend.init v env qs ss)
              (Frontend.MountAppContent :: acts))
      with (Frontend.run
              (Frontend.step (Frontend.init v env qs ss)
                 Frontend.MountAppContent) acts).
    assert (Frontend.step (Frontend.init v env qs ss) Frontend.MountAppContent
            = Frontend.setCache (Frontend.init v env qs ss)
                [([Some "auth"; Some ""],
                  Frontend.freshQuery Frontend.UseAuth)]) as ->.
    { simpl. unfold Frontend.useQuery; simpl.
      unfold Frontend.getTokenFromUrl. by rewrite Hget. }
    set (w0 := Frontend.setCache _ _).
    assert (Frontend.AppContent w0
            = match v with
              | Frontend.V4 => Frontend.ViewLoading
              | Frontend.V5 => Frontend.ViewThrows
              end) as Hview.
    { unfold Frontend.AppContent; simpl.
      unfold Frontend.getTokenFromUrl. rewrite Hget. simpl. by destruct v. }
    rewrite (Frontend_fixed_run w0 acts notMutate); [done| |done].
    intros a Ha. destruct a as [| |eventId b|i p|i err]; simpl; try done.
    + unfold Frontend.useQuery; simpl.
      unfold Frontend.getTokenFromUrl. rewrite Hget. by simpl.
    + rewrite Hview. by destruct v.
Qed.

End Edges.

(** ** Further concrete runs *)

Section MoreRuns.

Lemma swipes_recorded_in_queue_order_witness :
  map Axios.url
    (skipn 2
       (requests
          (EventsortUi.trace
             (EventsortUi.run loadedWorld
                (concat (map resolution
                           [(EventsortUi.right, demoSwipe 1 true);
                            (EventsortUi.left, demoSwipe 2 false);
                            (EventsortUi.left, demoSwipe 2 false)]))))))
  = ["/events/1/swipe"; "/events/2/swipe"].
Proof.
  unfold loadedWorld.
  rewrite (proj1 (swipes_recorded_in_queue_order demoSearch ∅ "abc" demoAuth
                    [E1; E2]
                    [(EventsortUi.right, demoSwipe 1 true);
                     (EventsortUi.left, demoSwipe 2 false);
                     (EventsortUi.left, demoSwipe 2 false)]
                    eq_refl ltac:(discriminate))).
  reflexivity.
Defined.

Lemma card_follows_cursor_witness :
  EventsortUi.render
    (EventsortUi.app
       (EventsortUi.run loadedWorld
          (concat (map resolution
                     [(EventsortUi.right, demoSwipe 1 true)]))))
  = EventsortUi.ViewCard E2 2 2 false.
Proof.
  exact (proj1 (card_follows_cursor demoSearch ∅ "abc" demoAuth [E1; E2]
                  [(EventsortUi.right, demoSwipe 1 true)]
                  eq_refl ltac:(discriminate))).
Defined.

Lemma failed_bootstrap_is_final_witness :
  EventsortUi.render
    (EventsortUi.app
       (EventsortUi.run (EventsortUi.init demoSearch ∅)
          ([EventsortUi.Mount;
            EventsortUi.Reject 0
              {| response_data_error := Some "expired" |}]
           ++ [EventsortUi.Gesture EventsortUi.right; EventsortUi.Tick])))
  = EventsortUi.ViewError "expired".
Proof.
  exact (proj1 (proj1 (failed_bootstrap_is_final demoSearch ∅ "abc"
                         {| response_data_error := Some "expired" |}
                         [EventsortUi.Gesture EventsortUi.right;
                          EventsortUi.Tick]
                         eq_refl ltac:(discriminate)
                         ltac:(repeat constructor; discriminate)))).
Defined.

Lemma session_requests_carry_credential_witness :
  Forall (fun c => Axios.header c "Authorization" = Some "Bearer 7")
    (skipn 1
       (requests
          (EventsortUi.trace
             (EventsortUi.run loadedWorld
                [EventsortUi.Gesture EventsortUi.right;
                 EventsortUi.Reject 0 networkError;
                 EventsortUi.Gesture EventsortUi.left])))).
Proof.
  exact (proj2 (proj2 (proj2
           (session_requests_carry_credential demoSearch ∅ "abc" demoAuth
              [E1; E2]
              [EventsortUi.Gesture EventsortUi.right;
               EventsortUi.Reject 0 networkError;
               EventsortUi.Gesture EventsortUi.left]
              eq_refl ltac:(discriminate)
              ltac:(repeat constructor; discriminate))))).
Defined.

Lemma rejected_exchange_is_access_denied_witness :
  Frontend.AppContent
    (Frontend.run (Frontend.init Frontend.V5 None demoSearch ∅)
       ([Frontend.MountAppContent; Frontend.Reject 0 networkError]
        ++ [Frontend.MountDashboard]))
  = Frontend.ViewAccessDenied.
Proof.
  exact (proj1 (rejected_exchange_is_access_denied Frontend.V5 None
                  demoSearch ∅ "abc" networkError [Frontend.MountDashboard]
                  eq_refl ltac:(discriminate) ltac:(repeat constructor))).
Defined.

Lemma dashboard_shows_both_answers_witness :
  Frontend.Dashboard
    (Frontend.run
       (Frontend.run (Frontend.init Frontend.V5 None demoSearch ∅)
          [Frontend.MountAppContent; Frontend.Fulfil 0 (AuthData demoAuth);
           Frontend.MountDashboard])
       [Frontend.Fulfil 1 (StatsData demoStats);
        Frontend.Fulfil 0 (EventsData [E1; E2])])
  = Frontend.DashboardShown (pending_swipes demoStats)
      (stat_interested demoStats) (urgent_events demoStats)
      (total_events demoStats)
      (Frontend.EventList
         (map (fun e => (id e, Frontend.EventCard e)) [E1; E2])).
Proof.
  exact (proj2 (proj2 (proj2 (proj2 (proj2
           (dashboard_shows_both_answers Frontend.V5 None demoSearch ∅ "abc"
              demoAuth [E1; E2] demoStats eq_refl ltac:(discriminate))))))).
Defined.

Lemma empty_token_is_no_token_witness :
  EventsortUi.trace
    (EventsortUi.run (EventsortUi.init [("token", "")] ∅)
       [EventsortUi.Mount; EventsortUi.Mount])
  = []
  /\ Frontend.trace
       (Frontend.run (Frontend.init Frontend.V5 None [("token", "")] ∅)
          [Frontend.MountAppContent; Frontend.MountDashboard])
     = [].
Proof.
  destruct (empty_token_is_no_token [("token", "")] eq_refl) as [Hcard Hlist].
  split.
  - exact (proj1 (Hcard ∅ [EventsortUi.Mount])).
  - exact (proj1 (Hlist Frontend.V5 None ∅ [Frontend.MountDashboard]
                    ltac:(repeat constructor))).
Defined.

Lemma stored_user_id_round_trip_witness :
  let w := Frontend.setUserId (Frontend.init Frontend.V5 None demoSearch ∅) 7 in
  Frontend.getUserId (Frontend.sessionStorage w) = Some "7"
  /\ Axios.header (Frontend.queryFn w Frontend.UseStats) "Authorization"
     = Some "Bearer 7".
Proof.
  assert (Js.isSafeInteger 7) as Hsafe by (vm_compute; split; discriminate).
  destruct (stored_user_id_round_trip
              (Frontend.init Frontend.V5 None demoSearch ∅) 7 Hsafe)
    as (Hread & Hq & _).
  exact (conj Hread (Hq Frontend.UseStats)).
Defined.

Lemma event_paths_identify_event_witness :
  Axios.url (EventsortUi.swipeEvent ∅ 1 true)
  <> Axios.url (EventsortUi.swipeEvent ∅ 2 true)
  /\ Axios.url (Frontend.mutationFn dashboardWorld 9007199254740991 true)
     <> Axios.url (Frontend.mutationFn dashboardWorld 9007199254740990 true).
Proof.
  assert (forall n : Z, (- 9007199254740991 <= n <= 9007199254740991)%Z ->
            Js.isSafeInteger n) as Hsafe by (intros n Hn; exact Hn).
  destruct event_paths_identify_event as (Hswipe & _ & Hmutate).
  split.
  - intros H. apply Hswipe in H; [discriminate| |]; apply Hsafe; lia.
  - intros H. apply Hmutate in H; [discriminate| |]; apply Hsafe; lia.
Defined.

End MoreRuns.
